(** * DJ-Pilot signaling server: room registry, join protocol, relay, cleanup

    A shallow embedding of the Socket.IO signaling server of the repository
    (the Cloud Run variant of [server.js], the last of the three server
    listings, which has the room-id validation, the capacity checks and the
    signaling rate limit), and the properties of its room/session core.

    Conventions of the embedding:
    - the [rooms] Map is a [gmap string Room]; [room.listeners], a JS [Set]
      of socket ids, is a duplicate-free list in insertion order (the order
      [forEach] visits);
    - the ad hoc fields the server stores on the socket object
      ([socket.roomId], [socket.role]), the Socket.IO rooms the socket has
      joined and the per-connection [signalRateLimit] Map form the record
      [Socket]; the live sockets are a [gmap string Socket] keyed by
      [socket.id];
    - handlers return the new state and the list of emissions they perform,
      in program order; [socket.emit] and [socket.to(x).emit] are kept apart
      ([Emit] and [Broadcast]) and [receives] says who gets each;
    - [Date.now()] / [new Date()] and the draws of [Math.random()] are inputs
      of the handlers that read them. Timestamps are integers (milliseconds). *)

From stdpp Require Import gmap strings list fin_maps.
From Stdlib Require Import ZArith Lia.

Local Open Scope Z_scope.

(** ** JavaScript values carried by client payloads *)

(** The fields [roomId] and [role] of a [join-room] payload are whatever the
    client sent. *)
Inductive JsValue :=
| JsUndefined
| JsNull
| JsBool (b : bool)
| JsNumber (n : Z)
| JsString (s : string)
| JsObject.

#[global] Instance JsValue_eq_dec : EqDecision JsValue.
Proof. solve_decision. Defined.

(** Truthiness of a string: only the empty string is falsy. *)
Definition str_truthy (s : string) : bool :=
  match s with
  | EmptyString => false
  | String _ _ => true
  end.

(** [!!v] *)
Definition js_truthy (v : JsValue) : bool :=
  match v with
  | JsUndefined | JsNull => false
  | JsBool b => b
  | JsNumber n => negb (n =? 0)
  | JsString s => str_truthy s
  | JsObject => true
  end.

(** [typeof v === "string"] *)
Definition js_is_string (v : JsValue) : bool :=
  match v with
  | JsString _ => true
  | _ => false
  end.

(** [v.length] for a string [v] (only evaluated on strings). *)
Definition js_length (v : JsValue) : Z :=
  match v with
  | JsString s => Z.of_nat (String.length s)
  | _ => 0
  end.

(** Truthiness of an optional string field ([null]/[undefined] is [None]). *)
Definition opt_truthy (o : option string) : bool :=
  match o with
  | Some s => str_truthy s
  | None => false
  end.

(** ** Data model *)

(** [{ host: null, listeners: new Set(), createdAt: new Date() }] *)
Record Room := mkRoom {
  host : option string;
  listeners : list string;
  createdAt : Z;
}.

(** The server-side state attached to one live connection. *)
Record Socket := mkSocket {
  roomId : option string;          (* socket.roomId, undefined until a join *)
  role : JsValue;                  (* socket.role, undefined until a join *)
  joined : gset string;            (* Socket.IO rooms entered by socket.join *)
  signalRateLimit : gmap string Z; (* the connection's signalRateLimit Map *)
}.

Record Config := mkConfig {
  maxRooms : Z;
  roomTimeout : Z;       (* hours *)
  maxConnections : Z;
}.

Record State := mkState {
  rooms : gmap string Room;
  sockets : gmap string Socket;
  connectionCount : Z;
}.

Definition initial_state : State := mkState ∅ ∅ 0.

(** Events the server sends. [listener-joined] has two payload shapes. *)
Inductive Event :=
| EvError (message : string)
| EvHostJoined (roomId : string)
| EvListenerJoinedRoom (roomId : string)
| EvListenerJoined (listenerId : string)
| EvHostConnected
| EvHostDisconnected
| EvListenerLeft (listenerId : string)
| EvListenerCountUpdated (count : nat)
| EvHostMuted
| EvHostUnmuted
| EvOffer (from : string) (offer : string)
| EvAnswer (from : string) (answer : string)
| EvIceCandidate (from : string) (candidate : string).

#[global] Instance Event_eq_dec : EqDecision Event.
Proof. solve_decision. Defined.

(** [Emit c ev] is [socket.emit(ev)] on the socket [c];
    [Broadcast c x ev] is [socket.to(x).emit(ev)] on the socket [c]. *)
Inductive Out :=
| Emit (c : string) (ev : Event)
| Broadcast (c : string) (target : string) (ev : Event).

#[global] Instance Out_eq_dec : EqDecision Out.
Proof. solve_decision. Defined.

(** A socket is in the Socket.IO room named by its own id and in the rooms it
    joined. [socket.to(x).emit] reaches the live sockets in room [x] other
    than the sender; [socket.emit] reaches the socket itself. *)
Definition in_io_room (socks : gmap string Socket) (c x : string) : bool :=
  match socks !! c with
  | Some sk => bool_decide (c = x) || bool_decide (x ∈ joined sk)
  | None => false
  end.

Definition receives (socks : gmap string Socket) (o : Out) (c : string) : bool :=
  match o with
  | Emit s _ => bool_decide (c = s)
  | Broadcast s x _ => negb (bool_decide (c = s)) && in_io_room socks c x
  end.

Definition out_event (o : Out) : Event :=
  match o with
  | Emit _ ev => ev
  | Broadcast _ _ ev => ev
  end.

(** [c] is sent [ev] by one of the emissions [outs]. *)
Definition gets (socks : gmap string Socket) (outs : list Out) (c : string) (ev : Event) : bool :=
  existsb (fun o => receives socks o c && bool_decide (out_event o = ev)) outs.

(** ** Room registry (REST surface) *)

Definition empty_room (now : Z) : Room := mkRoom None [] now.

(** [rooms.size >= config.maxRooms] *)
Definition at_capacity (cfg : Config) (rs : gmap string Room) : bool :=
  maxRooms cfg <=? Z.of_nat (size rs).

(** [generateRoomId]: draw until the id is not a key of [rooms]. [draws] are
    the successive values of
    [Math.random().toString(36).substring(2, 8).toUpperCase()]; [None] when
    the loop has not ended within the given draws. *)
Fixpoint generateRoomId (rs : gmap string Room) (draws : list string) : option string :=
  match draws with
  | [] => None
  | d :: ds =>
      match rs !! d with
      | Some _ => generateRoomId rs ds
      | None => Some d
      end
  end.

Inductive PostRoomsResponse :=
| RoomCreated (roomId : string)   (* 200 { roomId } *)
| TooManyRooms                    (* 429 "Maximum number of rooms reached" *)
| StillDrawing.                   (* every given draw collided *)

(** [POST /api/rooms] *)
Definition post_rooms (cfg : Config) (st : State) (draws : list string) (now : Z)
  : State * PostRoomsResponse :=
  if at_capacity cfg (rooms st) then (st, TooManyRooms)
  else
    match generateRoomId (rooms st) draws with
    | None => (st, StillDrawing)
    | Some r =>
        let rs :=
          match rooms st !! r with
          | Some _ => rooms st
          | None => <[r := empty_room now]> (rooms st)
          end in
        (mkState rs (sockets st) (connectionCount st), RoomCreated r)
    end.

Record RoomInfo := mkRoomInfo {
  hasHost : bool;
  listenerCount : nat;
  isActive : bool;
  infoCreatedAt : Z;
}.

(** [GET /api/rooms/:roomId]; [None] is the 404 "Room not found". *)
Definition get_room (st : State) (r : string) : option RoomInfo :=
  match rooms st !! r with
  | None => None
  | Some room =>
      Some (mkRoomInfo (opt_truthy (host room)) (length (listeners room))
                       (opt_truthy (host room)) (createdAt room))
  end.

(** ** Join protocol *)

(** [Set.prototype.add] on an insertion-ordered set. *)
Definition set_add (x : string) (l : list string) : list string :=
  if bool_decide (x ∈ l) then l else l ++ [x].

(** [Set.prototype.delete] *)
Definition set_delete (x : string) (l : list string) : list string :=
  filter (fun y => y ≠ x) l.

Definition handleHostJoin (c : string) (room : Room) (r : string) : Room * list Out :=
  if opt_truthy (host room) then
    (room, [Emit c (EvError "Room already has a host")])
  else
    (mkRoom (Some c) (listeners room) (createdAt room),
     Emit c (EvHostJoined r)
       :: flat_map (fun listenerId =>
                      [Broadcast c listenerId EvHostConnected;
                       Emit c (EvListenerJoined listenerId)])
                   (listeners room)).

Definition handleListenerJoin (c : string) (room : Room) (r : string) : Room * list Out :=
  let ls := set_add c (listeners room) in
  (mkRoom (host room) ls (createdAt room),
   [Emit c (EvListenerJoinedRoom r)]
     ++ match host room with
        | Some h =>
            if str_truthy h then
              [Broadcast c h (EvListenerJoined c); Emit c EvHostConnected]
            else []
        | None => []
        end
     ++ [Broadcast c r (EvListenerCountUpdated (length ls))]).

(** [!roomId || typeof roomId !== "string" || roomId.length > 10] *)
Definition invalid_room_id (v : JsValue) : bool :=
  negb (js_truthy v) || negb (js_is_string v) || (10 <? js_length v).

(** The [join-room] handler of the live socket [c] with session [sk]. *)
Definition join_room (cfg : Config) (st : State) (c : string) (sk : Socket)
    (roomIdv rolev : JsValue) (now : Z) : State * list Out :=
  if invalid_room_id roomIdv then (st, [Emit c (EvError "Invalid room ID")])
  else
    match roomIdv with
    | JsString r =>
        let created :=
          match rooms st !! r with
          | Some _ => Some (rooms st)
          | None =>
              if at_capacity cfg (rooms st) then None
              else Some (<[r := empty_room now]> (rooms st))
          end in
        match created with
        | None => (st, [Emit c (EvError "Server at capacity")])
        | Some rs =>
            let room := default (empty_room now) (rs !! r) in
            let sk' := mkSocket (Some r) rolev ({[r]} ∪ joined sk) (signalRateLimit sk) in
            let '(room', outs) :=
              if bool_decide (rolev = JsString "host") then handleHostJoin c room r
              else if bool_decide (rolev = JsString "listener") then handleListenerJoin c room r
              else (room, []) in
            (mkState (<[r := room']> rs) (<[c := sk']> (sockets st)) (connectionCount st),
             outs)
        end
    | _ => (st, [Emit c (EvError "Invalid room ID")]) (* not reached: not a string *)
    end.

(** ** Signaling relay *)

(** [rateLimitSignal(socketId)] with [now = Date.now()]: the answer and the
    updated [signalRateLimit] Map. [get(socketId) || 0] is [default 0]. *)
Definition rateLimitSignal (lim : gmap string Z) (socketId : string) (now : Z)
  : bool * gmap string Z :=
  let lastSignal := default 0 (lim !! socketId) in
  if now - lastSignal <? 50 then (false, lim)
  else (true, <[socketId := now]> lim).

Definition set_limit (sk : Socket) (lim : gmap string Z) : Socket :=
  mkSocket (roomId sk) (role sk) (joined sk) lim.

(** The [offer], [answer] and [ice-candidate] handlers of the live socket [c]:
    [ev] is the event they would forward to [to]. *)
Definition relay (st : State) (c : string) (sk : Socket) (to : string) (ev : Event) (now : Z)
  : State * list Out :=
  let '(ok, lim) := rateLimitSignal (signalRateLimit sk) c now in
  if ok then
    (mkState (rooms st) (<[c := set_limit sk lim]> (sockets st)) (connectionCount st),
     [Broadcast c to ev])
  else (st, []).

(** The [mute-stream] / [unmute-stream] handlers: [ev] is [EvHostMuted] or
    [EvHostUnmuted]. *)
Definition mute_broadcast (c : string) (sk : Socket) (ev : Event) : list Out :=
  if bool_decide (role sk = JsString "host") && opt_truthy (roomId sk) then
    match roomId sk with
    | Some r => [Broadcast c r ev]
    | None => []
    end
  else [].

(** ** Lifecycle cleanup *)

Definition handleDisconnect (rs : gmap string Room) (c : string) (sk : Socket)
  : gmap string Room * list Out :=
  match roomId sk with
  | None => (rs, [])
  | Some r =>
      if negb (str_truthy r) then (rs, [])
      else
        match rs !! r with
        | None => (rs, [])
        | Some room =>
            if bool_decide (role sk = JsString "host") && bool_decide (host room = Some c) then
              let outs := [Broadcast c r EvHostDisconnected] in
              if (length (listeners room) =? 0)%nat then (delete r rs, outs)
              else (<[r := mkRoom None (listeners room) (createdAt room)]> rs, outs)
            else if bool_decide (role sk = JsString "listener") then
              let ls := set_delete c (listeners room) in
              let outs :=
                match host room with
                | Some h => if str_truthy h then [Broadcast c h (EvListenerLeft c)] else []
                | None => []
                end
                ++ [Broadcast c r (EvListenerCountUpdated (length ls))] in
              if negb (opt_truthy (host room)) && (length ls =? 0)%nat
              then (delete r rs, outs)
              else (<[r := mkRoom (host room) ls (createdAt room)]> rs, outs)
            else (rs, [])
        end
  end.

(** The [disconnect] handler. Socket.IO has taken the socket out of its rooms
    by the time the handler runs; the socket's [signalRateLimit] goes with it. *)
Definition disconnect (st : State) (c : string) (sk : Socket) : State * list Out :=
  let '(rs, outs) := handleDisconnect (rooms st) c sk in
  (mkState rs (delete c (sockets st)) (connectionCount st - 1), outs).

(** The periodic sweep: [config.roomTimeout * 60 * 60 * 1000] is [maxAge]. *)
Definition maxAge (cfg : Config) : Z := roomTimeout cfg * 60 * 60 * 1000.

Definition stale (cfg : Config) (now : Z) (room : Room) : bool :=
  negb (opt_truthy (host room))
  && (length (listeners room) =? 0)%nat
  && (maxAge cfg <? now - createdAt room).

Definition sweep (cfg : Config) (rs : gmap string Room) (now : Z) : gmap string Room :=
  filter (fun kv => stale cfg now kv.2 = false) rs.

(** ** The server as a transition system *)

(** [io.on("connection")]: over the connection limit the socket is told so
    and dropped before any handler is registered. Socket.IO does not hand out
    the id of a live socket, so a [Connect] with a live id does nothing. *)
Definition connect (cfg : Config) (st : State) (c : string) : State * list Out :=
  match sockets st !! c with
  | Some _ => (st, [])
  | None =>
      let n := connectionCount st + 1 in
      if maxConnections cfg <? n then
        (mkState (rooms st) (sockets st) (n - 1), [Emit c (EvError "Server at capacity")])
      else
        (mkState (rooms st) (<[c := mkSocket None JsUndefined ∅ ∅]> (sockets st)) n, [])
  end.

Inductive Input :=
| Connect (c : string)
| JoinRoom (c : string) (roomIdv rolev : JsValue) (now : Z)
| Offer (c to offer : string) (now : Z)
| Answer (c to answer : string) (now : Z)
| IceCandidate (c to candidate : string) (now : Z)
| MuteStream (c : string)
| UnmuteStream (c : string)
| Disconnect (c : string)
| PostRooms (draws : list string) (now : Z)
| Sweep (now : Z).

(** Only sockets with registered handlers (the live ones) react. *)
Definition on_socket (st : State) (c : string) (h : Socket -> State * list Out)
  : State * list Out :=
  match sockets st !! c with
  | Some sk => h sk
  | None => (st, [])
  end.

Definition step (cfg : Config) (st : State) (i : Input) : State * list Out :=
  match i with
  | Connect c => connect cfg st c
  | JoinRoom c roomIdv rolev now =>
      on_socket st c (fun sk => join_room cfg st c sk roomIdv rolev now)
  | Offer c to offer now =>
      on_socket st c (fun sk => relay st c sk to (EvOffer c offer) now)
  | Answer c to answer now =>
      on_socket st c (fun sk => relay st c sk to (EvAnswer c answer) now)
  | IceCandidate c to candidate now =>
      on_socket st c (fun sk => relay st c sk to (EvIceCandidate c candidate) now)
  | MuteStream c => on_socket st c (fun sk => (st, mute_broadcast c sk EvHostMuted))
  | UnmuteStream c => on_socket st c (fun sk => (st, mute_broadcast c sk EvHostUnmuted))
  | Disconnect c => on_socket st c (fun sk => disconnect st c sk)
  | PostRooms draws now => ((post_rooms cfg st draws now).1, [])
  | Sweep now =>
      (mkState (sweep cfg (rooms st) now) (sockets st) (connectionCount st), [])
  end.

(** The state after a sequence of inputs. *)
Definition run (cfg : Config) (st : State) (ins : list Input) : State :=
  foldl (fun s i => (step cfg s i).1) st ins.

(** The states the server can be in. *)
Definition reachable (cfg : Config) (st : State) : Prop :=
  exists ins, st = run cfg initial_state ins.

(** * Properties *)

(** ** Basic facts about the embedding *)

Lemma opt_truthy_Some (o : option string) :
  opt_truthy o = true -> exists h, o = Some h /\ str_truthy h = true.
Proof. destruct o as [h|]; simpl; [eauto | discriminate]. Qed.

Lemma invalid_room_id_string (s : string) :
  invalid_room_id (JsString s) = false <->
  (1 <= String.length s <= 10)%nat.
Proof.
  unfold invalid_room_id; simpl.
  rewrite orb_false_r, orb_false_iff, negb_false_iff, Z.ltb_ge.
  destruct s as [|a s]; simpl; split.
  - intros [? _]; discriminate.
  - lia.
  - intros [_ ?]; lia.
  - intros [_ ?]; split; [reflexivity | lia].
Qed.

Lemma valid_truthy (r : string) :
  invalid_room_id (JsString r) = false -> str_truthy r = true.
Proof.
  unfold invalid_room_id; simpl. rewrite orb_false_r, orb_false_iff, negb_false_iff.
  tauto.
Qed.

Lemma invalid_not_string (v : JsValue) :
  js_is_string v = false -> invalid_room_id v = true.
Proof.
  intros H. unfold invalid_room_id. rewrite H; simpl.
  by rewrite orb_true_r.
Qed.

(** The result of a join that passes validation, as one equation. *)
Lemma join_room_valid cfg st c sk r rolev now :
  invalid_room_id (JsString r) = false ->
  join_room cfg st c sk (JsString r) rolev now =
    match (match rooms st !! r with
           | Some _ => Some (rooms st)
           | None =>
               if at_capacity cfg (rooms st) then None
               else Some (<[r := empty_room now]> (rooms st))
           end) with
    | None => (st, [Emit c (EvError "Server at capacity")])
    | Some rs =>
        let room := default (empty_room now) (rs !! r) in
        let sk' := mkSocket (Some r) rolev ({[r]} ∪ joined sk) (signalRateLimit sk) in
        let '(room', outs) :=
          if bool_decide (rolev = JsString "host") then handleHostJoin c room r
          else if bool_decide (rolev = JsString "listener") then handleListenerJoin c room r
          else (room, []) in
        (mkState (<[r := room']> rs) (<[c := sk']> (sockets st)) (connectionCount st), outs)
    end.
Proof. intros H. unfold join_room. rewrite H. reflexivity. Qed.

Lemma join_room_invalid cfg st c sk v rolev now :
  invalid_room_id v = true ->
  join_room cfg st c sk v rolev now = (st, [Emit c (EvError "Invalid room ID")]).
Proof. intros H. unfold join_room. rewrite H. reflexivity. Qed.

(** A join into an existing room leaves the registry's other entries alone
    and replaces the room by what the role's handler returns. *)
Lemma join_room_existing cfg st c sk r room rolev now :
  invalid_room_id (JsString r) = false ->
  rooms st !! r = Some room ->
  join_room cfg st c sk (JsString r) rolev now =
    let sk' := mkSocket (Some r) rolev ({[r]} ∪ joined sk) (signalRateLimit sk) in
    let '(room', outs) :=
      if bool_decide (rolev = JsString "host") then handleHostJoin c room r
      else if bool_decide (rolev = JsString "listener") then handleListenerJoin c room r
      else (room, []) in
    (mkState (<[r := room']> (rooms st)) (<[c := sk']> (sockets st)) (connectionCount st), outs).
Proof.
  intros Hv Hr. rewrite join_room_valid by exact Hv. rewrite Hr. simpl. rewrite Hr.
  reflexivity.
Qed.

Lemma join_room_fresh cfg st c sk r rolev now :
  invalid_room_id (JsString r) = false ->
  rooms st !! r = None ->
  at_capacity cfg (rooms st) = false ->
  join_room cfg st c sk (JsString r) rolev now =
    let sk' := mkSocket (Some r) rolev ({[r]} ∪ joined sk) (signalRateLimit sk) in
    let '(room', outs) :=
      if bool_decide (rolev = JsString "host") then handleHostJoin c (empty_room now) r
      else if bool_decide (rolev = JsString "listener") then handleListenerJoin c (empty_room now) r
      else (empty_room now, []) in
    (mkState (<[r := room']> (rooms st)) (<[c := sk']> (sockets st)) (connectionCount st), outs).
Proof.
  intros Hv Hr Hcap. rewrite join_room_valid by exact Hv. rewrite Hr, Hcap. simpl.
  rewrite lookup_insert_eq. simpl.
  destruct (bool_decide (rolev = JsString "host")).
  - destruct (handleHostJoin c (empty_room now) r). by rewrite insert_insert_eq.
  - destruct (bool_decide (rolev = JsString "listener")).
    + destruct (handleListenerJoin c (empty_room now) r). by rewrite insert_insert_eq.
    + by rewrite insert_insert_eq.
Qed.

Lemma on_socket_live st c sk h :
  sockets st !! c = Some sk -> on_socket st c h = h sk.
Proof. intros H. unfold on_socket. by rewrite H. Qed.

(** ** An invariant of the reachable states

    A room that has a host, and the room recorded on a session, always carry
    an id that passed the [join-room] validation: hosts and sessions are only
    ever set by a validated join. (A room made by [POST /api/rooms] may have
    any drawn id, but it has no host until someone joins it.) *)
Record wf (st : State) : Prop := mkWf {
  wf_hosted : forall r room,
    rooms st !! r = Some room -> opt_truthy (host room) = true ->
    invalid_room_id (JsString r) = false;
  wf_session : forall c sk r,
    sockets st !! c = Some sk -> roomId sk = Some r ->
    invalid_room_id (JsString r) = false;
}.

Lemma wf_initial : wf initial_state.
Proof. split; simpl; intros *; by rewrite lookup_empty. Qed.

Lemma handleHostJoin_host c room r :
  opt_truthy (host room) = true -> (handleHostJoin c room r).1 = room.
Proof. intros H. unfold handleHostJoin. by rewrite H. Qed.

Lemma wf_join_room cfg st c sk v rolev now :
  wf st -> wf (join_room cfg st c sk v rolev now).1.
Proof.
  intros [Hh Hs].
  destruct (invalid_room_id v) eqn:Hv.
  { rewrite join_room_invalid by exact Hv. by split. }
  destruct v as [| | | |r|]; try (by rewrite invalid_not_string in Hv).
  rewrite join_room_valid by exact Hv.
  destruct (match rooms st !! r with
            | Some _ => Some (rooms st)
            | None => if at_capacity cfg (rooms st) then None
                      else Some (<[r:=empty_room now]> (rooms st))
            end) as [rs|] eqn:Hrs; [| by split].
  assert (Hrs' : forall r' room', r' <> r -> rs !! r' = Some room' ->
                                  rooms st !! r' = Some room').
  { intros r' room' Hne Hl. destruct (rooms st !! r) eqn:E.
    - by simplify_eq.
    - destruct (at_capacity cfg (rooms st)); simplify_eq.
      by rewrite lookup_insert_ne in Hl. }
  cbn zeta.
  destruct (if bool_decide (rolev = JsString "host") then _ else _) as [room' outs].
  split; simpl.
  - intros r' rm Hl Ht. destruct (decide (r = r')) as [<-|Hne]; [exact Hv|].
    rewrite lookup_insert_ne in Hl by exact Hne. eauto.
  - intros c' sk' r' Hl Hr. destruct (decide (c = c')) as [<-|Hne].
    + rewrite lookup_insert_eq in Hl. by simplify_eq/=.
    + rewrite lookup_insert_ne in Hl by exact Hne. eauto.
Qed.

Lemma wf_handleDisconnect st c sk :
  wf st ->
  forall r room, (handleDisconnect (rooms st) c sk).1 !! r = Some room ->
                 opt_truthy (host room) = true ->
                 invalid_room_id (JsString r) = false.
Proof.
  intros [Hh Hs] r room. unfold handleDisconnect.
  destruct (roomId sk) as [r0|]; [| by eauto].
  destruct (negb (str_truthy r0)); [by eauto|].
  destruct (rooms st !! r0) as [room0|] eqn:E0; [| by eauto].
  destruct (_ && _).
  { destruct (_ =? _)%nat; simpl.
    - intros Hl. apply lookup_delete_Some in Hl as [_ Hl]. eauto.
    - destruct (decide (r0 = r)) as [->|Hne].
      + rewrite lookup_insert_eq. by intros; simplify_eq/=.
      + rewrite lookup_insert_ne by exact Hne. eauto. }
  destruct (bool_decide _); [| by eauto].
  destruct (_ && _); simpl.
  - intros Hl. apply lookup_delete_Some in Hl as [_ Hl]. eauto.
  - destruct (decide (r0 = r)) as [->|Hne].
    + rewrite lookup_insert_eq. intros; simplify_eq. eauto.
    + rewrite lookup_insert_ne by exact Hne. eauto.
Qed.

Lemma wf_post_rooms cfg st draws now :
  wf st -> wf (post_rooms cfg st draws now).1.
Proof.
  intros [Hh Hs]. unfold post_rooms.
  destruct (at_capacity cfg (rooms st)); [by split|].
  destruct (generateRoomId (rooms st) draws) as [r|]; [| by split].
  split; simpl; [| by eauto].
  intros r' room. destruct (rooms st !! r) eqn:E; [by eauto|].
  destruct (decide (r = r')) as [<-|Hne].
  - rewrite lookup_insert_eq. by intros; simplify_eq/=.
  - rewrite lookup_insert_ne by exact Hne. eauto.
Qed.

Lemma wf_step cfg st i : wf st -> wf (step cfg st i).1.
Proof.
  intros Hwf. pose proof Hwf as [Hh Hs].
  destruct i as [c|c v rolev now|c to p now|c to p now|c to p now|c|c|c|draws now|now];
    simpl; unfold on_socket.
  - unfold connect. destruct (sockets st !! c) eqn:E; [done|].
    destruct (_ <? _); split; simpl; eauto.
    intros c' sk' r. destruct (decide (c = c')) as [<-|Hne].
    + rewrite lookup_insert_eq. by intros; simplify_eq/=.
    + rewrite lookup_insert_ne by exact Hne. eauto.
  - destruct (sockets st !! c) eqn:E; [by apply wf_join_room | done].
  - destruct (sockets st !! c) as [sk|] eqn:E; [| done].
    unfold relay. destruct (rateLimitSignal _ _ _) as [[] lim]; [| done].
    split; simpl; eauto.
    intros c' sk' r. destruct (decide (c = c')) as [<-|Hne].
    + rewrite lookup_insert_eq. intros; simplify_eq. simpl in *. eauto.
    + rewrite lookup_insert_ne by exact Hne. eauto.
  - destruct (sockets st !! c) as [sk|] eqn:E; [| done].
    unfold relay. destruct (rateLimitSignal _ _ _) as [[] lim]; [| done].
    split; simpl; eauto.
    intros c' sk' r. destruct (decide (c = c')) as [<-|Hne].
    + rewrite lookup_insert_eq. intros; simplify_eq. simpl in *. eauto.
    + rewrite lookup_insert_ne by exact Hne. eauto.
  - destruct (sockets st !! c) as [sk|] eqn:E; [| done].
    unfold relay. destruct (rateLimitSignal _ _ _) as [[] lim]; [| done].
    split; simpl; eauto.
    intros c' sk' r. destruct (decide (c = c')) as [<-|Hne].
    + rewrite lookup_insert_eq. intros; simplify_eq. simpl in *. eauto.
    + rewrite lookup_insert_ne by exact Hne. eauto.
  - by destruct (sockets st !! c).
  - by destruct (sockets st !! c).
  - destruct (sockets st !! c) as [sk|] eqn:E; [| done].
    unfold disconnect.
    pose proof (wf_handleDisconnect st c sk Hwf) as Hd.
    destruct (handleDisconnect (rooms st) c sk) as [rs outs]. simpl in *.
    split; simpl; [exact Hd|].
    intros c' sk' r Hl. apply lookup_delete_Some in Hl as [_ Hl]. eauto.
  - by apply wf_post_rooms.
  - split; simpl; [| by eauto].
    intros r room Hl. unfold sweep in Hl.
    apply map_lookup_filter_Some in Hl as [Hl _]. eauto.
Qed.

Lemma wf_run cfg ins : forall st, wf st -> wf (run cfg st ins).
Proof.
  induction ins as [|i ins IH]; intros st Hwf; [exact Hwf|].
  simpl. apply IH. by apply wf_step.
Qed.

Lemma wf_reachable cfg st : reachable cfg st -> wf st.
Proof. intros [ins ->]. apply wf_run, wf_initial. Qed.

(** ** Joins *)

(** A join never touches a room other than the one it names. *)
Lemma join_room_other_rooms cfg st c sk v rolev now r' :
  v <> JsString r' ->
  rooms (join_room cfg st c sk v rolev now).1 !! r' = rooms st !! r'.
Proof.
  intros Hne.
  destruct (invalid_room_id v) eqn:Hv.
  { by rewrite join_room_invalid. }
  destruct v as [| | | |r|]; try (by rewrite invalid_not_string in Hv).
  assert (r <> r') as Hrr by congruence.
  destruct (rooms st !! r) as [room|] eqn:Hr.
  - rewrite (join_room_existing _ _ _ _ _ room) by done. cbn zeta.
    destruct (if bool_decide (rolev = JsString "host") then _ else _) as [room' outs].
    simpl. by rewrite lookup_insert_ne.
  - destruct (at_capacity cfg (rooms st)) eqn:Hcap.
    + rewrite join_room_valid by done. by rewrite Hr, Hcap.
    + rewrite join_room_fresh by done. cbn zeta.
      destruct (if bool_decide (rolev = JsString "host") then _ else _) as [room' outs].
      simpl. by rewrite lookup_insert_ne.
Qed.

(** The whole effect of a host join into a room that has a host: the registry
    is as it was, the error goes to the joiner, and the joiner's session has
    nevertheless been given the room and the role. *)
Lemma join_room_hosted cfg st c sk r room now :
  invalid_room_id (JsString r) = false ->
  rooms st !! r = Some room ->
  opt_truthy (host room) = true ->
  join_room cfg st c sk (JsString r) (JsString "host") now =
    (mkState (rooms st)
             (<[c := mkSocket (Some r) (JsString "host") ({[r]} ∪ joined sk)
                              (signalRateLimit sk)]> (sockets st))
             (connectionCount st),
     [Emit c (EvError "Room already has a host")]).
Proof.
  intros Hv Hr Hh. rewrite (join_room_existing _ _ _ _ _ room) by done.
  cbn zeta. rewrite bool_decide_eq_true_2 by done.
  unfold handleHostJoin. rewrite Hh. by rewrite insert_id.
Qed.

Definition is_join (i : Input) : bool :=
  match i with
  | JoinRoom _ _ _ _ => true
  | _ => false
  end.

(** [c] is recorded as the host of room [r]. *)
Definition recorded_host (st : State) (r c : string) : Prop :=
  exists room, rooms st !! r = Some room /\ host room = Some c.

Lemma join_keeps_host cfg st i r h :
  is_join i = true -> str_truthy h = true ->
  recorded_host st r h -> recorded_host (step cfg st i).1 r h.
Proof.
  intros Hj Hh (room & Hr & Hhost).
  destruct i as [|c v rolev now| | | | | | | |]; try discriminate Hj.
  simpl. unfold on_socket. destruct (sockets st !! c) as [sk|]; [| by exists room].
  destruct (decide (v = JsString r)) as [->|Hne].
  - destruct (invalid_room_id (JsString r)) eqn:Hv.
    { rewrite join_room_invalid by done. by exists room. }
    rewrite (join_room_existing _ _ _ _ _ room) by done. cbn zeta.
    destruct (bool_decide (rolev = JsString "host")).
    { unfold handleHostJoin. rewrite Hhost. simpl. rewrite Hh.
      exists room. simpl. by rewrite lookup_insert_eq. }
    destruct (bool_decide (rolev = JsString "listener")); simpl.
    + eexists. simpl. rewrite lookup_insert_eq. split; [reflexivity | done].
    + exists room. simpl. by rewrite lookup_insert_eq.
  - exists room. by rewrite join_room_other_rooms.
Qed.

Lemma joins_keep_host cfg r h joins :
  str_truthy h = true ->
  Forall (fun i => is_join i = true) joins ->
  forall st, recorded_host st r h -> recorded_host (run cfg st joins) r h.
Proof.
  intros Hh. induction 1 as [|i joins Hi _ IH]; intros st Hrec; [exact Hrec|].
  simpl. apply IH. by apply join_keeps_host.
Qed.

(** C1. A room records at most one host, and the first host wins: in every
    reachable state, a [join-room] with role [host] from a live connection
    into a room whose host field is set emits only
    [error {message: "Room already has a host"}], to the joiner alone, and
    leaves the room as it was; after any further sequence of joins the room's
    host field still names the first host, and any two connections recorded
    as the host of one room are the same connection. *)
Theorem single_host_first_wins cfg st c sk r room h now :
  reachable cfg st ->
  sockets st !! c = Some sk ->
  rooms st !! r = Some room ->
  host room = Some h -> str_truthy h = true ->
  let res := step cfg st (JoinRoom c (JsString r) (JsString "host") now) in
  res.2 = [Emit c (EvError "Room already has a host")]
  /\ (forall c', gets (sockets res.1) res.2 c' (EvError "Room already has a host") = true
                 <-> c' = c)
  /\ rooms res.1 !! r = Some room
  /\ forall joins, Forall (fun i => is_join i = true) joins ->
       recorded_host (run cfg st joins) r h
       /\ forall c1 c2, recorded_host (run cfg st joins) r c1 ->
                        recorded_host (run cfg st joins) r c2 -> c1 = c2.
Proof.
  intros Hreach Hc Hr Hhost Hh res.
  assert (Ht : opt_truthy (host room) = true) by (by rewrite Hhost).
  pose proof (wf_hosted _ (wf_reachable _ _ Hreach) _ _ Hr Ht) as Hv.
  assert (Hres : res = join_room cfg st c sk (JsString r) (JsString "host") now).
  { unfold res. simpl. by rewrite (on_socket_live _ _ sk). }
  rewrite (join_room_hosted _ _ _ _ _ room) in Hres by done.
  rewrite Hres. simpl. repeat split.
  - rewrite orb_false_r, andb_true_iff, !bool_decide_eq_true. tauto.
  - intros ->. rewrite orb_false_r, andb_true_iff, !bool_decide_eq_true. done.
  - exact Hr.
  - apply joins_keep_host; [done..|]. by exists room.
  - intros c1 c2 (r1 & Hl1 & Hh1) (r2 & Hl2 & Hh2). congruence.
Qed.

Definition demo_config : Config := mkConfig 200 12 100.

(** Scenario B of the specification: host H is in room R1, X asks to host it. *)
Definition scenario_B : State :=
  run demo_config initial_state
      [Connect "H"; Connect "X"; JoinRoom "H" (JsString "R1") (JsString "host") 5].

Lemma single_host_first_wins_witness :
  (step demo_config scenario_B (JoinRoom "X" (JsString "R1") (JsString "host") 7)).2
    = [Emit "X" (EvError "Room already has a host")]
  /\ rooms (step demo_config scenario_B
                 (JoinRoom "X" (JsString "R1") (JsString "host") 7)).1 !! "R1"
     = Some (mkRoom (Some "H") [] 5).
Proof.
  destruct (single_host_first_wins demo_config scenario_B "X"
              (mkSocket None JsUndefined ∅ ∅) "R1" (mkRoom (Some "H") [] 5) "H" 7)
    as (H1 & _ & H3 & _).
  - exists [Connect "H"; Connect "X"; JoinRoom "H" (JsString "R1") (JsString "host") 5].
    reflexivity.
  - vm_compute. reflexivity.
  - vm_compute. reflexivity.
  - reflexivity.
  - reflexivity.
  - split; [exact H1 | exact H3].
Defined.

(** A join that passes validation and is not refused for capacity. *)
Lemma join_room_accepted cfg st c sk r rolev now :
  invalid_room_id (JsString r) = false ->
  (rooms st !! r = None -> at_capacity cfg (rooms st) = false) ->
  join_room cfg st c sk (JsString r) rolev now =
    let room := default (empty_room now) (rooms st !! r) in
    let sk' := mkSocket (Some r) rolev ({[r]} ∪ joined sk) (signalRateLimit sk) in
    let '(room', outs) :=
      if bool_decide (rolev = JsString "host") then handleHostJoin c room r
      else if bool_decide (rolev = JsString "listener") then handleListenerJoin c room r
      else (room, []) in
    (mkState (<[r := room']> (rooms st)) (<[c := sk']> (sockets st)) (connectionCount st), outs).
Proof.
  intros Hv Hcap. destruct (rooms st !! r) as [room|] eqn:Hr.
  - by rewrite (join_room_existing _ _ _ _ _ room).
  - by rewrite join_room_fresh by auto.
Qed.

Lemma in_io_room_joined socks c sk r :
  socks !! c = Some sk -> r ∈ joined sk -> in_io_room socks c r = true.
Proof.
  intros Hc Hr. unfold in_io_room. rewrite Hc.
  rewrite (bool_decide_eq_true_2 (r ∈ joined sk)) by done. apply orb_true_r.
Qed.

Lemma set_add_elem x l : x ∈ set_add x l.
Proof.
  unfold set_add. case_bool_decide; [done|]. apply elem_of_app. right. by left.
Qed.

(** C2. What a listener join does with [listener-count-updated]: the event,
    carrying the new size of the room's listener set, is sent to every other
    live member of the room, but not to the joining listener, although the
    joiner is by then a member of the room and of its listener set. *)
Theorem listener_count_skips_joiner cfg st c sk r now :
  sockets st !! c = Some sk ->
  invalid_room_id (JsString r) = false ->
  (rooms st !! r = None -> at_capacity cfg (rooms st) = false) ->
  let res := step cfg st (JoinRoom c (JsString r) (JsString "listener") now) in
  exists room',
    rooms res.1 !! r = Some room'
    /\ c ∈ listeners room'
    /\ in_io_room (sockets res.1) c r = true
    /\ (forall c', c' <> c -> in_io_room (sockets res.1) c' r = true ->
          gets (sockets res.1) res.2 c'
               (EvListenerCountUpdated (length (listeners room'))) = true)
    /\ (forall n, gets (sockets res.1) res.2 c (EvListenerCountUpdated n) = false).
Proof.
  intros Hc Hv Hcap res.
  assert (Hres : res = join_room cfg st c sk (JsString r) (JsString "listener") now).
  { unfold res. simpl. by rewrite (on_socket_live _ _ sk). }
  rewrite join_room_accepted in Hres by done. cbn zeta in Hres.
  rewrite bool_decide_eq_false_2 in Hres by done.
  rewrite bool_decide_eq_true_2 in Hres by done.
  unfold handleListenerJoin in Hres. cbn zeta in Hres.
  set (room := default (empty_room now) (rooms st !! r)) in *.
  rewrite Hres. eexists. simpl. rewrite lookup_insert_eq.
  split; [reflexivity|]. simpl. split; [apply set_add_elem|]. split.
  { eapply in_io_room_joined; [apply lookup_insert_eq|]. simpl. set_solver. }
  split.
  - intros c' Hne Hin. unfold gets. simpl. rewrite existsb_app. simpl.
    rewrite Hin. rewrite (bool_decide_eq_false_2 (c' = c)) by done.
    rewrite bool_decide_eq_true_2 by done. simpl. by rewrite !orb_true_r.
  - intros n. unfold gets.
    destruct (host room) as [h|]; [destruct (str_truthy h)|]; simpl;
      rewrite !(bool_decide_eq_true_2 (c = c)) by done; reflexivity.
Qed.

(** Scenario A of the specification: host H is in room ABC123, L1 joins it. *)
Definition scenario_A : State :=
  run demo_config initial_state
      [Connect "H"; Connect "L1"; JoinRoom "H" (JsString "ABC123") (JsString "host") 5].

Lemma listener_count_skips_joiner_witness :
  let res := step demo_config scenario_A
                  (JoinRoom "L1" (JsString "ABC123") (JsString "listener") 6) in
  gets (sockets res.1) res.2 "H" (EvListenerCountUpdated 1) = true
  /\ gets (sockets res.1) res.2 "L1" (EvListenerCountUpdated 1) = false.
Proof.
  destruct (listener_count_skips_joiner demo_config scenario_A "L1"
              (mkSocket None JsUndefined ∅ ∅) "ABC123" 6)
    as (room' & Hr & _ & _ & Hothers & Hself).
  - vm_compute. reflexivity.
  - reflexivity.
  - intros _. vm_compute. reflexivity.
  - assert (room' = mkRoom (Some "H") ["L1"] 5) as ->.
    { vm_compute in Hr. congruence. }
    split.
    + apply (Hothers "H"); [discriminate | vm_compute; reflexivity].
    + apply Hself.
Defined.

(** C3. The three ways a join fails and what each leaves behind. A join
    refused for its room id or for capacity changes nothing at all. A host
    join refused because the room has a host leaves the registry alone, but
    the joiner's session is not as it was: the handler has already entered the
    socket into the Socket.IO room and stored the room id and the role "host"
    on it before the host check runs. *)
Theorem failed_join_session cfg st c sk now :
  sockets st !! c = Some sk ->
  (forall v rolev, invalid_room_id v = true ->
     step cfg st (JoinRoom c v rolev now) = (st, [Emit c (EvError "Invalid room ID")]))
  /\ (forall r rolev,
        invalid_room_id (JsString r) = false ->
        rooms st !! r = None -> at_capacity cfg (rooms st) = true ->
        step cfg st (JoinRoom c (JsString r) rolev now)
          = (st, [Emit c (EvError "Server at capacity")]))
  /\ (forall r room,
        invalid_room_id (JsString r) = false ->
        rooms st !! r = Some room -> opt_truthy (host room) = true ->
        let res := step cfg st (JoinRoom c (JsString r) (JsString "host") now) in
        res.2 = [Emit c (EvError "Room already has a host")]
        /\ rooms res.1 = rooms st
        /\ sockets res.1 !! c
           = Some (mkSocket (Some r) (JsString "host") ({[r]} ∪ joined sk)
                            (signalRateLimit sk))
        /\ in_io_room (sockets res.1) c r = true).
Proof.
  intros Hc. repeat split.
  - intros v rolev Hv. simpl. rewrite (on_socket_live _ _ sk) by done.
    by apply join_room_invalid.
  - intros r rolev Hv Hr Hcap. simpl. rewrite (on_socket_live _ _ sk) by done.
    rewrite join_room_valid by done. by rewrite Hr, Hcap.
  - simpl. rewrite (on_socket_live _ _ sk) by done.
    by rewrite (join_room_hosted _ _ _ _ _ room).
  - simpl. rewrite (on_socket_live _ _ sk) by done.
    by rewrite (join_room_hosted _ _ _ _ _ room).
  - simpl. rewrite (on_socket_live _ _ sk) by done.
    rewrite (join_room_hosted _ _ _ _ _ room) by done. simpl.
    by rewrite lookup_insert_eq.
  - simpl. rewrite (on_socket_live _ _ sk) by done.
    rewrite (join_room_hosted _ _ _ _ _ room) by done. simpl.
    eapply in_io_room_joined; [apply lookup_insert_eq|]. simpl. set_solver.
Qed.

Lemma failed_join_session_witness :
  sockets scenario_B !! "X" = Some (mkSocket None JsUndefined ∅ ∅)
  /\ let res := step demo_config scenario_B
                     (JoinRoom "X" (JsString "R1") (JsString "host") 7) in
     res.2 = [Emit "X" (EvError "Room already has a host")]
     /\ sockets res.1 !! "X"
        = Some (mkSocket (Some "R1") (JsString "host") ({["R1"]} ∪ ∅) ∅).
Proof.
  assert (Hc : sockets scenario_B !! "X" = Some (mkSocket None JsUndefined ∅ ∅))
    by (vm_compute; reflexivity).
  split; [exact Hc|].
  destruct (failed_join_session demo_config scenario_B "X" _ 7 Hc) as (_ & _ & H).
  destruct (H "R1" (mkRoom (Some "H") [] 5)) as (H1 & _ & H3 & _).
  - reflexivity.
  - vm_compute. reflexivity.
  - reflexivity.
  - split; [exact H1 | exact H3].
Defined.

(** ** Disconnects *)

Lemma in_io_room_delete socks c c' x :
  c' <> c -> in_io_room (delete c socks) c' x = in_io_room socks c' x.
Proof. intros Hne. unfold in_io_room. by rewrite lookup_delete_ne. Qed.

(** The host branch of [handleDisconnect]. *)
Lemma handleDisconnect_host rs c sk r room :
  roomId sk = Some r -> str_truthy r = true ->
  role sk = JsString "host" ->
  rs !! r = Some room -> host room = Some c ->
  handleDisconnect rs c sk =
    (if (length (listeners room) =? 0)%nat then delete r rs
     else <[r := mkRoom None (listeners room) (createdAt room)]> rs,
     [Broadcast c r EvHostDisconnected]).
Proof.
  intros Hr Ht Hrole Hl Hh. unfold handleDisconnect.
  rewrite Hr, Ht, Hl, Hrole, Hh. simpl.
  rewrite !bool_decide_eq_true_2 by done. simpl.
  by destruct (_ =? _)%nat.
Qed.

(** C4, amended. The disconnect of a live connection whose session has role
    "host" and names a room whose host field is this connection, in a
    reachable state: the only emission is the [host-disconnected] broadcast,
    which every other member of the room receives; the room leaves the
    registry exactly when its listener set is empty; a room that stays has
    its host field cleared and its listener set as before, so a room with
    listeners is then reported with [hasHost = false] and the same listener
    count. *)
Theorem host_disconnect cfg st c sk r room :
  reachable cfg st ->
  sockets st !! c = Some sk ->
  roomId sk = Some r -> role sk = JsString "host" ->
  rooms st !! r = Some room -> host room = Some c ->
  let res := step cfg st (Disconnect c) in
  res.2 = [Broadcast c r EvHostDisconnected]
  /\ (forall c', c' <> c -> in_io_room (sockets st) c' r = true ->
        gets (sockets res.1) res.2 c' EvHostDisconnected = true)
  /\ (rooms res.1 !! r = None <-> listeners room = [])
  /\ (forall room', rooms res.1 !! r = Some room' ->
        host room' = None /\ listeners room' = listeners room)
  /\ (listeners room <> [] ->
        get_room res.1 r
        = Some (mkRoomInfo false (length (listeners room)) false (createdAt room))).
Proof.
  intros Hreach Hc Hr Hrole Hl Hh res.
  pose proof (valid_truthy _ (wf_session _ (wf_reachable _ _ Hreach) _ _ _ Hc Hr)) as Ht.
  assert (Hres : res = disconnect st c sk).
  { unfold res. simpl. by rewrite (on_socket_live _ _ sk). }
  unfold disconnect in Hres.
  rewrite (handleDisconnect_host _ _ _ r room) in Hres by done.
  rewrite Hres. simpl. split; [reflexivity|]. split.
  { intros c' Hne Hin. unfold gets. simpl.
    rewrite in_io_room_delete, Hin by done.
    by rewrite (bool_decide_eq_false_2 (c' = c)). }
  destruct (listeners room) as [|l ls] eqn:Hls; simpl.
  - rewrite lookup_delete_eq. repeat split; done.
  - rewrite lookup_insert_eq. repeat split; try done.
    + by intros; simplify_eq.
    + by intros; simplify_eq.
    + intros _. unfold get_room. simpl. by rewrite lookup_insert_eq.
Qed.

(** Scenario C of the specification: the host of a room with two listeners
    disconnects. *)
Definition scenario_C : State :=
  run demo_config initial_state
      [Connect "H"; Connect "L1"; Connect "L2";
       JoinRoom "H" (JsString "R1") (JsString "host") 5;
       JoinRoom "L1" (JsString "R1") (JsString "listener") 6;
       JoinRoom "L2" (JsString "R1") (JsString "listener") 7].

Lemma host_disconnect_witness :
  let res := step demo_config scenario_C (Disconnect "H") in
  gets (sockets res.1) res.2 "L1" EvHostDisconnected = true
  /\ gets (sockets res.1) res.2 "L2" EvHostDisconnected = true
  /\ get_room res.1 "R1" = Some (mkRoomInfo false 2 false 5).
Proof.
  destruct (host_disconnect demo_config scenario_C "H"
              (mkSocket (Some "R1") (JsString "host") ({["R1"]} ∪ ∅) ∅)
              "R1" (mkRoom (Some "H") ["L1"; "L2"] 5))
    as (_ & Hb & _ & _ & Hq).
  - eexists. reflexivity.
  - vm_compute. reflexivity.
  - reflexivity.
  - reflexivity.
  - vm_compute. reflexivity.
  - reflexivity.
  - split; [apply Hb; [discriminate | vm_compute; reflexivity]|].
    split; [apply Hb; [discriminate | vm_compute; reflexivity]|].
    apply Hq. discriminate.
Defined.

(** What C4 says of the disconnect of [c], recorded as the host of room [r]:
    [host-disconnected] is broadcast to the room and the room, if it stays,
    has no host. *)
Definition host_cleared_on_disconnect (cfg : Config) (st : State) (c r : string) : Prop :=
  let res := step cfg st (Disconnect c) in
  res.2 = [Broadcast c r EvHostDisconnected]
  /\ forall room', rooms res.1 !! r = Some room' -> host room' = None.

(** The host of a room with one listener sends a second [join-room] for its
    own room, with the role "dj". *)
Definition scenario_host_rejoined : State :=
  run demo_config initial_state
      [Connect "H"; Connect "L1";
       JoinRoom "H" (JsString "R1") (JsString "host") 5;
       JoinRoom "L1" (JsString "R1") (JsString "listener") 6;
       JoinRoom "H" (JsString "R1") (JsString "dj") 7].

(** The socket is still recorded as the room's host and its session still
    names the room, but its role is now "dj": its disconnect runs no branch
    of the cleanup, nothing is broadcast and the room keeps its host. *)
Lemma host_disconnect_counterexample :
  reachable demo_config scenario_host_rejoined
  /\ sockets scenario_host_rejoined !! "H"
     = Some (mkSocket (Some "R1") (JsString "dj") ({["R1"]} ∪ ({["R1"]} ∪ ∅)) ∅)
  /\ recorded_host scenario_host_rejoined "R1" "H"
  /\ (step demo_config scenario_host_rejoined (Disconnect "H")).2 = []
  /\ get_room (step demo_config scenario_host_rejoined (Disconnect "H")).1 "R1"
     = Some (mkRoomInfo true 1 true 5)
  /\ ~ host_cleared_on_disconnect demo_config scenario_host_rejoined "H" "R1".
Proof.
  split; [eexists; reflexivity|].
  split; [vm_compute; reflexivity|].
  split.
  { exists (mkRoom (Some "H") ["L1"] 5). split; [vm_compute; reflexivity | done]. }
  split; [vm_compute; reflexivity|].
  split; [vm_compute; reflexivity|].
  intros [Hout _]. vm_compute in Hout. discriminate.
Qed.

(** ** Capacity *)

(** C5. With the registry at the configured maximum (or above it), an
    explicit room creation is answered 429 and a join that would have to
    create its room is answered "Server at capacity"; neither changes the
    state, so the number of rooms is the same. *)
Theorem capacity_exceeded cfg st :
  maxRooms cfg <= Z.of_nat (size (rooms st)) ->
  (forall draws now,
     post_rooms cfg st draws now = (st, TooManyRooms)
     /\ size (rooms (step cfg st (PostRooms draws now)).1) = size (rooms st))
  /\ (forall c sk r rolev now,
        sockets st !! c = Some sk ->
        invalid_room_id (JsString r) = false ->
        rooms st !! r = None ->
        step cfg st (JoinRoom c (JsString r) rolev now)
          = (st, [Emit c (EvError "Server at capacity")])
        /\ size (rooms (step cfg st (JoinRoom c (JsString r) rolev now)).1)
           = size (rooms st)).
Proof.
  intros Hcap.
  assert (Hat : at_capacity cfg (rooms st) = true).
  { unfold at_capacity. by apply Z.leb_le. }
  split.
  - intros draws now. simpl. unfold post_rooms. by rewrite Hat.
  - intros c sk r rolev now Hc Hv Hr.
    assert (step cfg st (JoinRoom c (JsString r) rolev now)
            = (st, [Emit c (EvError "Server at capacity")])) as ->; [|done].
    simpl. rewrite (on_socket_live _ _ sk) by done.
    rewrite join_room_valid by done. by rewrite Hr, Hat.
Qed.

(** Scenario E of the specification, with room for one room only. *)
Definition one_room_config : Config := mkConfig 1 12 100.

Definition scenario_E : State :=
  run one_room_config initial_state [Connect "C"; PostRooms ["A1B2C3"] 5].

Lemma capacity_exceeded_witness :
  size (rooms scenario_E) = 1%nat
  /\ post_rooms one_room_config scenario_E ["Z9Y8X7"] 6 = (scenario_E, TooManyRooms)
  /\ step one_room_config scenario_E (JoinRoom "C" (JsString "NEW") (JsString "host") 6)
     = (scenario_E, [Emit "C" (EvError "Server at capacity")]).
Proof.
  assert (Hsize : size (rooms scenario_E) = 1%nat) by (vm_compute; reflexivity).
  split; [exact Hsize|].
  destruct (capacity_exceeded one_room_config scenario_E) as [Hpost Hjoin].
  - rewrite Hsize. simpl. lia.
  - split; [apply Hpost|].
    apply (Hjoin "C" (mkSocket None JsUndefined ∅ ∅)).
    + vm_compute. reflexivity.
    + reflexivity.
    + vm_compute. reflexivity.
Defined.

(** ** Room-id validation *)

(** The join is refused as [InvalidRoomId]: nothing is done but to send the
    error to the joiner. *)
Definition fails_invalid_room_id (cfg : Config) (st : State) (c : string)
    (v rolev : JsValue) (now : Z) : Prop :=
  step cfg st (JoinRoom c v rolev now) = (st, [Emit c (EvError "Invalid room ID")]).

(** A non-empty string of at most 10 characters. *)
Definition well_formed_room_id (v : JsValue) : Prop :=
  exists s, v = JsString s /\ (1 <= String.length s <= 10)%nat.

Lemma invalid_room_id_spec (v : JsValue) :
  invalid_room_id v = false <-> well_formed_room_id v.
Proof.
  split.
  - intros Hv. destruct v as [| | | |s|]; try (by rewrite invalid_not_string in Hv).
    exists s. split; [done|]. by apply invalid_room_id_string.
  - intros (s & -> & Hs). by apply invalid_room_id_string.
Qed.

Lemma handleHostJoin_events c room r o :
  o ∈ (handleHostJoin c room r).2 ->
  out_event o = EvError "Room already has a host"
  \/ out_event o = EvHostJoined r
  \/ out_event o = EvHostConnected
  \/ exists l, out_event o = EvListenerJoined l.
Proof.
  unfold handleHostJoin. destruct (opt_truthy (host room)); simpl.
  - intros ->%list_elem_of_singleton. by left.
  - intros [->|Hin]%elem_of_cons; [right; by left|].
    apply list_elem_of_In, in_flat_map in Hin as (l & _ & Hin).
    destruct Hin as [<-|[<-|[]]]; simpl; eauto.
Qed.

Lemma handleListenerJoin_events c room r o :
  o ∈ (handleListenerJoin c room r).2 ->
  out_event o = EvListenerJoinedRoom r
  \/ out_event o = EvListenerJoined c
  \/ out_event o = EvHostConnected
  \/ exists n, out_event o = EvListenerCountUpdated n.
Proof.
  unfold handleListenerJoin. simpl.
  intros [->|Hin]%elem_of_cons; [by left|].
  apply elem_of_app in Hin as [Hin|Hin].
  - destruct (host room) as [h|]; [destruct (str_truthy h)|];
      try (by apply elem_of_nil in Hin).
    apply elem_of_cons in Hin as [->|Hin]; [right; by left|].
    apply list_elem_of_singleton in Hin as ->. right; right; by left.
  - apply list_elem_of_singleton in Hin as ->. simpl. eauto 6.
Qed.

(** A join that passes validation never sends "Invalid room ID". *)
Lemma join_room_valid_no_invalid_error cfg st c sk r rolev now o :
  invalid_room_id (JsString r) = false ->
  o ∈ (join_room cfg st c sk (JsString r) rolev now).2 ->
  out_event o <> EvError "Invalid room ID".
Proof.
  intros Hv. rewrite join_room_valid by done.
  destruct (match rooms st !! r with
            | Some _ => Some (rooms st)
            | None => if at_capacity cfg (rooms st) then None
                      else Some (<[r:=empty_room now]> (rooms st))
            end) as [rs|].
  2: { simpl. by intros ->%list_elem_of_singleton. }
  cbn zeta. set (room := default (empty_room now) (rs !! r)).
  destruct (bool_decide (rolev = JsString "host")).
  { pose proof (handleHostJoin_events c room r o) as He.
    destruct (handleHostJoin c room r) as [room' outs]. simpl in *.
    intros Hin. destruct (He Hin) as [E|[E|[E|[l E]]]]; by rewrite E. }
  destruct (bool_decide (rolev = JsString "listener")).
  { pose proof (handleListenerJoin_events c room r o) as He.
    destruct (handleListenerJoin c room r) as [room' outs]. simpl in *.
    intros Hin. destruct (He Hin) as [E|[E|[E|[l E]]]]; by rewrite E. }
  simpl. by intros ?%elem_of_nil.
Qed.

(** C6. The [join-room] handler validates the room id before anything else.
    For a live connection, the join is refused as [InvalidRoomId] (state
    untouched, only the error sent) exactly when the id is missing (absent,
    null or empty: what [!roomId] tests), is not a string, or is a string of
    more than 10 characters; that is, exactly when it is not a non-empty
    string of at most 10 characters. Every non-empty string of at most 10
    characters passes: such a join never sends "Invalid room ID". *)
Theorem room_id_validation cfg st c sk v rolev now :
  sockets st !! c = Some sk ->
  (fails_invalid_room_id cfg st c v rolev now
   <-> (js_truthy v = false \/ js_is_string v = false
        \/ exists s, v = JsString s /\ (10 < String.length s)%nat))
  /\ (fails_invalid_room_id cfg st c v rolev now <-> ~ well_formed_room_id v)
  /\ (well_formed_room_id v ->
      forall o, o ∈ (step cfg st (JoinRoom c v rolev now)).2 ->
                out_event o <> EvError "Invalid room ID").
Proof.
  intros Hc.
  assert (Hstep : step cfg st (JoinRoom c v rolev now)
                  = join_room cfg st c sk v rolev now).
  { simpl. by rewrite (on_socket_live _ _ sk). }
  assert (Hfail : fails_invalid_room_id cfg st c v rolev now <-> invalid_room_id v = true).
  { unfold fails_invalid_room_id. rewrite Hstep. split.
    - intros Heq. destruct (invalid_room_id v) eqn:Hv; [done|].
      apply invalid_room_id_spec in Hv as Hwf. destruct Hwf as (s & -> & _).
      exfalso.
      apply (join_room_valid_no_invalid_error cfg st c sk s rolev now
               (Emit c (EvError "Invalid room ID"))); [done| |done].
      rewrite Heq. simpl. by left.
    - apply join_room_invalid. }
  split; [|split].
  - rewrite Hfail. unfold invalid_room_id.
    rewrite !orb_true_iff, !negb_true_iff, Z.ltb_lt. split.
    + intros [[?|?]|Hlen]; [by left | right; by left |].
      destruct v as [| | | |s|]; simpl in Hlen; try lia.
      right; right. exists s. split; [done | lia].
    + intros [?|[?|(s & -> & Hs)]]; [left; by left | left; by right |].
      right. simpl. lia.
  - rewrite Hfail, <- invalid_room_id_spec. by destruct (invalid_room_id v).
  - intros Hwf o. rewrite Hstep. destruct Hwf as (s & -> & Hs).
    apply join_room_valid_no_invalid_error. by apply invalid_room_id_string.
Qed.

Lemma room_id_validation_witness :
  fails_invalid_room_id demo_config scenario_B "X" (JsString "ABCDEFGHIJK")
                        (JsString "listener") 7
  /\ fails_invalid_room_id demo_config scenario_B "X" JsUndefined (JsString "listener") 7
  /\ fails_invalid_room_id demo_config scenario_B "X" (JsNumber 42) (JsString "listener") 7
  /\ ~ fails_invalid_room_id demo_config scenario_B "X" (JsString "ABCDEFGHIJ")
                             (JsString "listener") 7.
Proof.
  assert (Hc : sockets scenario_B !! "X" = Some (mkSocket None JsUndefined ∅ ∅))
    by (vm_compute; reflexivity).
  split; [|split; [|split]].
  - apply (proj1 (room_id_validation demo_config _ _ _ (JsString "ABCDEFGHIJK")
             (JsString "listener") 7 Hc)).
    right; right. exists "ABCDEFGHIJK". split; [reflexivity | simpl; lia].
  - apply (proj1 (room_id_validation demo_config _ _ _ JsUndefined (JsString "listener") 7 Hc)).
    by left.
  - apply (proj1 (room_id_validation demo_config _ _ _ (JsNumber 42) (JsString "listener") 7 Hc)).
    right; by left.
  - intros Hf.
    apply (proj1 (room_id_validation demo_config _ _ _ (JsString "ABCDEFGHIJ")
             (JsString "listener") 7 Hc)) in Hf.
    destruct Hf as [Hf|[Hf|(s & Hs & Hlen)]]; try discriminate.
    injection Hs as <-. simpl in Hlen. lia.
Defined.

(** ** Signaling rate limit *)

(** The time of [i] when it is a signaling message ([offer], [answer] or
    [ice-candidate]) sent by [c]. *)
Definition signal_of (c : string) (i : Input) : option Z :=
  match i with
  | Offer c' _ _ now | Answer c' _ _ now | IceCandidate c' _ _ now =>
      if bool_decide (c' = c) then Some now else None
  | _ => None
  end.

(** The times of the signaling messages of [c] that the server forwarded
    (for which it called [socket.to(to).emit]) while handling [ins], in order. *)
Fixpoint forwarded_times (cfg : Config) (st : State) (c : string) (ins : list Input)
  : list Z :=
  match ins with
  | [] => []
  | i :: rest =>
      let res := step cfg st i in
      match signal_of c i, res.2 with
      | Some now, _ :: _ => now :: forwarded_times cfg res.1 c rest
      | _, _ => forwarded_times cfg res.1 c rest
      end
  end.

(** Successive elements are at least 50 apart, the first one from [lo]. *)
Fixpoint spaced_from (lo : option Z) (ts : list Z) : Prop :=
  match ts with
  | [] => True
  | t :: ts' =>
      match lo with
      | Some l => l + 50 <= t
      | None => True
      end /\ spaced_from (Some t) ts'
  end.

(** The [signalRateLimit] Map of the live socket [c]. *)
Definition limit_of (st : State) (c : string) : option (gmap string Z) :=
  signalRateLimit <$> sockets st !! c.

Lemma relay_spec st c sk to ev now :
  relay st c sk to ev now =
    if now - default 0 (signalRateLimit sk !! c) <? 50 then (st, [])
    else (mkState (rooms st)
                  (<[c := set_limit sk (<[c := now]> (signalRateLimit sk))]> (sockets st))
                  (connectionCount st),
          [Broadcast c to ev]).
Proof. unfold relay, rateLimitSignal. by destruct (_ <? _). Qed.

Lemma limit_of_insert_ne st rs socks n c c' sk :
  c' <> c -> socks = <[c' := sk]> (sockets st) ->
  limit_of (mkState rs socks n) c = limit_of st c.
Proof. intros Hne ->. unfold limit_of. simpl. by rewrite lookup_insert_ne. Qed.

(** Inputs that are neither a signaling message of [c] nor a new connection
    with the id [c] leave [c]'s rate-limit Map alone, or end the connection. *)
Lemma step_keeps_limit cfg st c i :
  signal_of c i = None -> i <> Connect c ->
  limit_of (step cfg st i).1 c = limit_of st c \/ limit_of (step cfg st i).1 c = None.
Proof.
  intros Hsig Hconn.
  destruct i as [c'|c' v rolev now|c' to p now|c' to p now|c' to p now|c'|c'|c'|draws now|now];
    simpl in *; unfold on_socket.
  - assert (c' <> c) by congruence. unfold connect.
    destruct (sockets st !! c'); [by left|].
    destruct (_ <? _); [by left|]. left. by eapply limit_of_insert_ne.
  - destruct (sockets st !! c') as [sk|] eqn:E; [| by left].
    left. unfold join_room.
    destruct (invalid_room_id v); [done|].
    destruct v as [| | | |r|]; try done.
    destruct (match rooms st !! r with
              | Some _ => Some (rooms st)
              | None => if at_capacity cfg (rooms st) then None
                        else Some (<[r:=empty_room now]> (rooms st))
              end); [|done].
    destruct (if bool_decide (rolev = JsString "host") then _ else _) as [room' outs].
    unfold limit_of. simpl. destruct (decide (c' = c)) as [->|Hne].
    + rewrite lookup_insert_eq, E. done.
    + by rewrite lookup_insert_ne.
  - case_bool_decide; [done|].
    destruct (sockets st !! c') as [sk|] eqn:E; [| by left].
    rewrite relay_spec. destruct (_ <? _); [by left|]. left.
    by eapply limit_of_insert_ne.
  - case_bool_decide; [done|].
    destruct (sockets st !! c') as [sk|] eqn:E; [| by left].
    rewrite relay_spec. destruct (_ <? _); [by left|]. left.
    by eapply limit_of_insert_ne.
  - case_bool_decide; [done|].
    destruct (sockets st !! c') as [sk|] eqn:E; [| by left].
    rewrite relay_spec. destruct (_ <? _); [by left|]. left.
    by eapply limit_of_insert_ne.
  - left. by destruct (sockets st !! c').
  - left. by destruct (sockets st !! c').
  - destruct (sockets st !! c') as [sk|] eqn:E; [| by left].
    unfold disconnect. destruct (handleDisconnect (rooms st) c' sk) as [rs outs].
    unfold limit_of. simpl. destruct (decide (c' = c)) as [->|Hne].
    + right. by rewrite lookup_delete_eq.
    + left. by rewrite lookup_delete_ne.
  - left. unfold post_rooms. destruct (at_capacity cfg (rooms st)); [done|].
    by destruct (generateRoomId (rooms st) draws).
  - by left.
Qed.

Lemma spaced_from_weaken lo ts : spaced_from lo ts -> spaced_from None ts.
Proof. destruct ts; simpl; [done|]. tauto. Qed.

Lemma forwarded_times_spaced cfg c ins :
  Connect c ∉ ins ->
  forall st,
    match limit_of st c with
    | Some lim => spaced_from (lim !! c) (forwarded_times cfg st c ins)
    | None => forwarded_times cfg st c ins = []
    end.
Proof.
  induction ins as [|i ins IH]; intros Hno st.
  { simpl. by destruct (limit_of st c). }
  assert (Hno' : Connect c ∉ ins) by (intros ?; apply Hno; by right).
  assert (Hi : i <> Connect c) by (intros ->; apply Hno; by left).
  specialize (IH Hno').
  destruct (signal_of c i) as [now|] eqn:Hsig.
  - assert (exists to ev, step cfg st i
              = on_socket st c (fun sk => relay st c sk to ev now)) as (to & ev & Hstep).
    { destruct i; simpl in Hsig; try discriminate;
        case_bool_decide; simplify_eq; simpl; eauto. }
    simpl. rewrite Hsig, Hstep. unfold on_socket, limit_of.
    destruct (sockets st !! c) as [sk|] eqn:E; simpl.
    2: { specialize (IH st). unfold limit_of in IH. by rewrite E in IH. }
    rewrite relay_spec. destruct (_ <? _) eqn:Hlt; simpl.
    + specialize (IH st). unfold limit_of in IH. by rewrite E in IH.
    + apply Z.ltb_ge in Hlt. split.
      * destruct (signalRateLimit sk !! c); simpl in *; [lia | done].
      * match goal with |- context [forwarded_times cfg ?s c ins] => specialize (IH s) end.
        unfold limit_of in IH. simpl in IH.
        rewrite lookup_insert_eq in IH. simpl in IH.
        by rewrite lookup_insert_eq in IH.
  - assert (Hfw : forwarded_times cfg st c (i :: ins)
                  = forwarded_times cfg (step cfg st i).1 c ins).
    { simpl. by rewrite Hsig. }
    rewrite Hfw. specialize (IH (step cfg st i).1).
    destruct (step_keeps_limit cfg st c i Hsig Hi) as [Heq|Heq]; rewrite Heq in IH.
    + exact IH.
    + rewrite IH. by destruct (limit_of st c).
Qed.

Lemma spaced_from_lookup ts : forall lo l j tj,
  spaced_from lo ts -> lo = Some l -> ts !! j = Some tj -> l + 50 <= tj.
Proof.
  induction ts as [|t ts IH]; intros lo l j tj Hsp -> Hj; [done|].
  destruct Hsp as [Hlo Hsp]. destruct j as [|j]; simpl in Hj.
  - by simplify_eq.
  - pose proof (IH (Some t) t j tj Hsp eq_refl Hj). lia.
Qed.

Lemma spaced_from_pairs ts : forall lo i j ti tj,
  spaced_from lo ts -> (i < j)%nat ->
  ts !! i = Some ti -> ts !! j = Some tj -> ti + 50 <= tj.
Proof.
  induction ts as [|t ts IH]; intros lo i j ti tj Hsp Hij Hi Hj; [done|].
  destruct Hsp as [_ Hsp]. destruct j as [|j]; [lia|].
  destruct i as [|i]; simpl in *.
  - simplify_eq. by eapply spaced_from_lookup.
  - eapply (IH (Some t) i j); [done | lia | done..].
Qed.

(** C7. The per-sender signaling rate limit. Over any sequence of inputs in
    which the socket id [c] stays one connection, the signaling messages of
    [c] that the server forwards are at least 50 ms apart, whichever two are
    taken. And for a live sender whose last forwarded message was at time
    [last]: a message less than 50 ms after it is dropped outright (no
    emission to anyone, the sender included, and no change of state, so
    nothing is kept for later), while a later one is forwarded by a single
    broadcast and becomes the sender's last forwarded message. *)
Theorem signal_rate_limit cfg st c ins :
  Connect c ∉ ins ->
  (forall i j ti tj, (i < j)%nat ->
     forwarded_times cfg st c ins !! i = Some ti ->
     forwarded_times cfg st c ins !! j = Some tj ->
     ti + 50 <= tj)
  /\ (forall sk last msg now,
        sockets st !! c = Some sk ->
        signalRateLimit sk !! c = Some last ->
        signal_of c msg = Some now ->
        (now - last < 50 -> step cfg st msg = (st, []))
        /\ (50 <= now - last ->
            (exists to ev, (step cfg st msg).2 = [Broadcast c to ev])
            /\ limit_of (step cfg st msg).1 c = Some (<[c := now]> (signalRateLimit sk)))).
Proof.
  intros Hno. split.
  - intros i j ti tj Hij Hi Hj.
    pose proof (forwarded_times_spaced cfg c ins Hno st) as Hsp.
    destruct (limit_of st c) as [lim|].
    + by eapply spaced_from_pairs.
    + by rewrite Hsp in Hi.
  - intros sk last msg now Hc Hlast Hsig.
    assert (exists to ev, step cfg st msg = relay st c sk to ev now) as (to & ev & ->).
    { destruct msg; simpl in Hsig; try discriminate;
        case_bool_decide; simplify_eq; simpl;
        rewrite (on_socket_live _ _ sk) by done; eauto. }
    rewrite relay_spec, Hlast. simpl. split.
    + intros Hlt. by rewrite (proj2 (Z.ltb_lt _ _) Hlt).
    + intros Hge. rewrite (proj2 (Z.ltb_ge _ _) Hge). simpl. split; [by eauto|].
      unfold limit_of. simpl. by rewrite lookup_insert_eq.
Qed.

(** A burst of ICE candidates from the host right after its offer. *)
Definition ice_burst : list Input :=
  [Offer "H" "L1" "sdp" 1000;
   IceCandidate "H" "L1" "cand1" 1020;
   IceCandidate "H" "L1" "cand2" 1049;
   IceCandidate "H" "L1" "cand3" 1050].

Lemma signal_rate_limit_witness :
  forwarded_times demo_config scenario_A "H" ice_burst = [1000; 1050]
  /\ 1000 + 50 <= 1050.
Proof.
  split; [vm_compute; reflexivity|].
  apply (proj1 (signal_rate_limit demo_config scenario_A "H" ice_burst
                  ltac:(unfold ice_burst; rewrite !not_elem_of_cons;
                        repeat split; try discriminate; apply not_elem_of_nil))
               0%nat 1%nat 1000 1050).
  - lia.
  - vm_compute. reflexivity.
  - vm_compute. reflexivity.
Defined.

(** ** Host controls *)

Lemma mute_broadcast_host c sk r ev :
  role sk = JsString "host" -> roomId sk = Some r -> str_truthy r = true ->
  mute_broadcast c sk ev = [Broadcast c r ev].
Proof.
  intros Hrole Hr Ht. unfold mute_broadcast. rewrite Hrole, Hr. simpl.
  by rewrite Ht.
Qed.

(** C8. The guard of [mute-stream] and [unmute-stream] looks at the sender's
    session only: whatever the registry says, a live socket whose recorded
    role is "host" and whose recorded room id is [r'] gets its
    [host-muted] / [host-unmuted] broadcast to room [r']. In particular, in
    every reachable state, a connection whose host join into a hosted room
    was refused with "Room already has a host" can mute right after: the
    broadcast goes to the room and the actual host, still recorded as the
    room's host, receives [host-muted]. *)
Theorem rejected_host_can_mute cfg st c sk r room h now :
  reachable cfg st ->
  sockets st !! c = Some sk ->
  rooms st !! r = Some room -> host room = Some h -> str_truthy h = true ->
  h <> c -> in_io_room (sockets st) h r = true ->
  let join := step cfg st (JoinRoom c (JsString r) (JsString "host") now) in
  (forall st' sk' r',
     sockets st' !! c = Some sk' ->
     role sk' = JsString "host" -> roomId sk' = Some r' -> str_truthy r' = true ->
     step cfg st' (MuteStream c) = (st', [Broadcast c r' EvHostMuted])
     /\ step cfg st' (UnmuteStream c) = (st', [Broadcast c r' EvHostUnmuted]))
  /\ join.2 = [Emit c (EvError "Room already has a host")]
  /\ recorded_host join.1 r h
  /\ (step cfg join.1 (MuteStream c)).2 = [Broadcast c r EvHostMuted]
  /\ gets (sockets join.1) (step cfg join.1 (MuteStream c)).2 h EvHostMuted = true.
Proof.
  intros Hreach Hc Hr Hhost Hh Hne Hin join.
  assert (Ht : opt_truthy (host room) = true) by (by rewrite Hhost).
  pose proof (wf_hosted _ (wf_reachable _ _ Hreach) _ _ Hr Ht) as Hv.
  assert (Hguard : forall st' sk' r' ev,
             sockets st' !! c = Some sk' ->
             role sk' = JsString "host" -> roomId sk' = Some r' -> str_truthy r' = true ->
             on_socket st' c (fun sk => (st', mute_broadcast c sk ev))
             = (st', [Broadcast c r' ev])).
  { intros st' sk' r' ev Hc' Hrole Hr' Ht'. rewrite (on_socket_live _ _ sk') by done.
    by rewrite (mute_broadcast_host _ _ r'). }
  split; [intros st' sk' r' ? ? ? ?; simpl; split; by eapply Hguard|].
  assert (Hjoin : join = join_room cfg st c sk (JsString r) (JsString "host") now).
  { unfold join. simpl. by rewrite (on_socket_live _ _ sk). }
  rewrite (join_room_hosted _ _ _ _ _ room) in Hjoin by done.
  rewrite Hjoin. simpl. split; [done|]. split; [by exists room|].
  rewrite (Hguard _ (mkSocket (Some r) (JsString "host") ({[r]} ∪ joined sk)
                              (signalRateLimit sk)) r);
    [| simpl; by rewrite lookup_insert_eq | done | done | by apply valid_truthy].
  split; [done|]. unfold gets. simpl.
  rewrite (bool_decide_eq_false_2 (h = c)) by done. simpl.
  assert (in_io_room (<[c := mkSocket (Some r) (JsString "host") ({[r]} ∪ joined sk)
                                      (signalRateLimit sk)]> (sockets st)) h r = true) as ->.
  { unfold in_io_room in *. by rewrite lookup_insert_ne. }
  reflexivity.
Qed.

Lemma rejected_host_can_mute_witness :
  let join := step demo_config scenario_B
                   (JoinRoom "X" (JsString "R1") (JsString "host") 7) in
  join.2 = [Emit "X" (EvError "Room already has a host")]
  /\ (step demo_config join.1 (MuteStream "X")).2 = [Broadcast "X" "R1" EvHostMuted]
  /\ gets (sockets join.1) (step demo_config join.1 (MuteStream "X")).2 "H" EvHostMuted
     = true.
Proof.
  destruct (rejected_host_can_mute demo_config scenario_B "X"
              (mkSocket None JsUndefined ∅ ∅) "R1" (mkRoom (Some "H") [] 5) "H" 7)
    as (_ & H1 & _ & H3 & H4).
  - eexists. reflexivity.
  - vm_compute. reflexivity.
  - vm_compute. reflexivity.
  - reflexivity.
  - reflexivity.
  - discriminate.
  - vm_compute. reflexivity.
  - split; [exact H1|]. split; [exact H3 | exact H4].
Defined.

(** C9. The disconnect of a live connection whose recorded role is "host"
    but which is not the recorded host of the room its session names (a
    refused second host, for one) runs neither branch of the cleanup: the
    registry is exactly as before (same rooms, same hosts, same listener
    sets) and nothing is emitted. *)
Theorem stale_host_disconnect_frame cfg st c sk :
  sockets st !! c = Some sk ->
  role sk = JsString "host" ->
  (forall r room, roomId sk = Some r -> rooms st !! r = Some room -> host room <> Some c) ->
  rooms (step cfg st (Disconnect c)).1 = rooms st
  /\ (step cfg st (Disconnect c)).2 = []
  /\ handleDisconnect (rooms st) c sk = (rooms st, []).
Proof.
  intros Hc Hrole Hnot.
  assert (Hd : handleDisconnect (rooms st) c sk = (rooms st, [])).
  { unfold handleDisconnect. destruct (roomId sk) as [r|]; [|done].
    destruct (negb (str_truthy r)); [done|].
    destruct (rooms st !! r) as [room|] eqn:Hr; [|done].
    rewrite Hrole. rewrite (bool_decide_eq_false_2 (host room = Some c)) by eauto.
    rewrite andb_false_r. by rewrite bool_decide_eq_false_2. }
  simpl. rewrite (on_socket_live _ _ sk) by done. unfold disconnect. by rewrite Hd.
Qed.

Lemma stale_host_disconnect_frame_witness :
  let st := (step demo_config scenario_B
                  (JoinRoom "X" (JsString "R1") (JsString "host") 7)).1 in
  rooms (step demo_config st (Disconnect "X")).1 = rooms st
  /\ (step demo_config st (Disconnect "X")).2 = [].
Proof.
  intros st.
  destruct (stale_host_disconnect_frame demo_config st "X"
              (mkSocket (Some "R1") (JsString "host") ({["R1"]} ∪ ∅) ∅))
    as (H1 & H2 & _).
  - vm_compute. reflexivity.
  - reflexivity.
  - intros r room Hr. simpl in Hr. injection Hr as <-.
    vm_compute. intros Hroom. injection Hroom as <-. discriminate.
  - split; [exact H1 | exact H2].
Defined.

(** ** Joins with an unknown role *)


Lemma sweep_lookup cfg rs now r room :
  rs !! r = Some room ->
  sweep cfg rs now !! r = if stale cfg now room then None else Some room.
Proof.
  intros Hr. unfold sweep. destruct (stale cfg now room) eqn:Hs.
  - apply map_lookup_filter_None. right. intros room' Hr'. simpl.
    assert (room' = room) as -> by congruence. by rewrite Hs.
  - apply map_lookup_filter_Some. by split.
Qed.


(** * Further properties of the server *)

(** ** Reachable states *)

Lemma reachable_initial cfg : reachable cfg initial_state.
Proof. by exists []. Qed.

Lemma reachable_step cfg st i :
  reachable cfg st -> reachable cfg (step cfg st i).1.
Proof.
  intros [ins ->]. exists (ins ++ [i]). unfold run. by rewrite foldl_snoc.
Qed.

(** Induction over the reachable states. *)
Lemma reachable_ind' cfg (P : State -> Prop) :
  P initial_state ->
  (forall st i, reachable cfg st -> P st -> P (step cfg st i).1) ->
  forall st, reachable cfg st -> P st.
Proof.
  intros H0 Hstep st [ins ->].
  induction ins as [|i ins IH] using rev_ind; [exact H0|].
  unfold run in *. rewrite foldl_snoc. apply Hstep; [by exists ins | exact IH].
Qed.

(** ** Room creation *)

(** X1. [generateRoomId] answers with the first draw that is not a key of the
    registry: the id it returns is fresh, every draw before it was taken, and
    it gives no answer only when every draw it was given is taken. *)
Theorem generateRoomId_first_fresh (rs : gmap string Room) (draws : list string) :
  match generateRoomId rs draws with
  | Some r =>
      rs !! r = None
      /\ exists taken rest,
           draws = taken ++ r :: rest /\ Forall (fun d => is_Some (rs !! d)) taken
  | None => Forall (fun d => is_Some (rs !! d)) draws
  end.
Proof.
  induction draws as [|d ds IH]; simpl; [by constructor|].
  destruct (rs !! d) as [room|] eqn:Hd.
  - destruct (generateRoomId rs ds) as [r|].
    + destruct IH as (Hr & taken & rest & -> & Htaken). split; [done|].
      exists (d :: taken), rest. split; [done|]. constructor; [by rewrite Hd | done].
    + constructor; [by rewrite Hd | done].
  - split; [done|]. exists [], ds. split; [done | constructor].
Qed.

Lemma generateRoomId_Exists rs draws :
  Exists (fun d => rs !! d = None) draws ->
  exists r, generateRoomId rs draws = Some r /\ rs !! r = None.
Proof.
  induction 1 as [d ds Hd|d ds _ IH]; simpl.
  - rewrite Hd. eauto.
  - destruct (rs !! d) eqn:E; eauto.
Qed.

(** X2. Round trip of an explicit creation. Below the room limit, and as soon
    as one draw is not taken, [POST /api/rooms] answers with a room id that
    was not in the registry; the room is then there, and
    [GET /api/rooms/:roomId] reports it with no host, no listener and the
    creation time; every other room is as before and the registry has one
    room more. *)
Theorem post_rooms_roundtrip cfg st draws now :
  Z.of_nat (size (rooms st)) < maxRooms cfg ->
  Exists (fun d => rooms st !! d = None) draws ->
  let res := post_rooms cfg st draws now in
  exists r,
    res.2 = RoomCreated r
    /\ rooms st !! r = None
    /\ get_room res.1 r = Some (mkRoomInfo false 0 false now)
    /\ (forall r', r' <> r -> rooms res.1 !! r' = rooms st !! r')
    /\ size (rooms res.1) = S (size (rooms st))
    /\ sockets res.1 = sockets st.
Proof.
  intros Hcap Hex res.
  destruct (generateRoomId_Exists _ _ Hex) as (r & Hgen & Hr).
  assert (Hat : at_capacity cfg (rooms st) = false).
  { unfold at_capacity. apply Z.leb_gt. lia. }
  assert (Hres : res = (mkState (<[r := empty_room now]> (rooms st)) (sockets st)
                                (connectionCount st), RoomCreated r)).
  { unfold res, post_rooms. by rewrite Hat, Hgen, Hr. }
  exists r. rewrite Hres. simpl. repeat split; try done.
  - unfold get_room. simpl. by rewrite lookup_insert_eq.
  - intros r' Hne. by rewrite lookup_insert_ne.
  - by apply map_size_insert_None.
Qed.

Lemma post_rooms_roundtrip_witness :
  exists r,
    (post_rooms demo_config scenario_B ["R1"; "K7Q2ZX"] 9).2 = RoomCreated r
    /\ get_room (post_rooms demo_config scenario_B ["R1"; "K7Q2ZX"] 9).1 r
       = Some (mkRoomInfo false 0 false 9).
Proof.
  destruct (post_rooms_roundtrip demo_config scenario_B ["R1"; "K7Q2ZX"] 9)
    as (r & H1 & _ & H3 & _).
  - vm_compute. reflexivity.
  - apply Exists_cons_tl, Exists_cons_hd. vm_compute. reflexivity.
  - exists r. split; [exact H1 | exact H3].
Defined.

(** The registry grows by at most one room per input, and only below the
    limit. *)
Lemma step_rooms_size cfg st i :
  (size (rooms (step cfg st i).1) <= size (rooms st))%nat
  \/ (Z.of_nat (size (rooms st)) < maxRooms cfg
      /\ size (rooms (step cfg st i).1) = S (size (rooms st))).
Proof.
  destruct i as [c|c v rolev now|c to p now|c to p now|c to p now|c|c|c|draws now|now];
    simpl; unfold on_socket.
  - left. unfold connect. destruct (sockets st !! c); [done|]. by destruct (_ <? _).
  - destruct (sockets st !! c) as [sk|]; [| by left].
    destruct (invalid_room_id v) eqn:Hv.
    { left. by rewrite join_room_invalid. }
    destruct v as [| | | |r|]; try (by rewrite invalid_not_string in Hv).
    destruct (rooms st !! r) as [room|] eqn:Hr.
    + left. rewrite (join_room_existing _ _ _ _ _ room) by done. cbn zeta.
      destruct (if bool_decide (rolev = JsString "host") then _ else _) as [room' outs].
      simpl. by rewrite map_size_insert_Some.
    + destruct (at_capacity cfg (rooms st)) eqn:Hcap.
      * left. rewrite join_room_valid by done. by rewrite Hr, Hcap.
      * right. split; [unfold at_capacity in Hcap; apply Z.leb_gt in Hcap; lia|].
        rewrite join_room_fresh by done. cbn zeta.
        destruct (if bool_decide (rolev = JsString "host") then _ else _) as [room' outs].
        simpl. by rewrite map_size_insert_None.
  - left. destruct (sockets st !! c) as [sk|]; [|done].
    rewrite relay_spec. by destruct (_ <? _).
  - left. destruct (sockets st !! c) as [sk|]; [|done].
    rewrite relay_spec. by destruct (_ <? _).
  - left. destruct (sockets st !! c) as [sk|]; [|done].
    rewrite relay_spec. by destruct (_ <? _).
  - left. by destruct (sockets st !! c).
  - left. by destruct (sockets st !! c).
  - left. destruct (sockets st !! c) as [sk|]; [|done].
    unfold disconnect, handleDisconnect.
    destruct (roomId sk) as [r|]; [|done].
    destruct (negb (str_truthy r)); [done|].
    destruct (rooms st !! r) as [room|] eqn:Hr; [|done].
    destruct (_ && _).
    { destruct (_ =? _)%nat; simpl.
      - rewrite map_size_delete_Some by done. lia.
      - by rewrite map_size_insert_Some. }
    destruct (bool_decide _); [|done].
    destruct (_ && _); simpl.
    + rewrite map_size_delete_Some by done. lia.
    + by rewrite map_size_insert_Some.
  - unfold post_rooms. destruct (at_capacity cfg (rooms st)) eqn:Hcap; [by left|].
    destruct (generateRoomId (rooms st) draws) as [r|]; [|by left]. simpl.
    destruct (rooms st !! r) eqn:Hr; [by left|]. right.
    unfold at_capacity in Hcap. apply Z.leb_gt in Hcap. split; [lia|].
    by apply map_size_insert_None.
  - left. simpl. unfold sweep. apply map_subseteq_size, map_filter_subseteq.
Qed.

(** X3. The room limit holds in every reachable state: the registry never
    has more than [config.maxRooms] rooms (none at all when the limit is not
    positive), whatever mix of joins, explicit creations, disconnects and
    sweeps led there. *)
Theorem rooms_within_capacity cfg st :
  reachable cfg st ->
  Z.of_nat (size (rooms st)) <= Z.max 0 (maxRooms cfg).
Proof.
  revert st. apply reachable_ind'.
  - simpl. rewrite map_size_empty. lia.
  - intros st i _ IH. destruct (step_rooms_size cfg st i) as [Hle|[Hlt Heq]]; lia.
Qed.

Lemma rooms_within_capacity_witness :
  Z.of_nat (size (rooms (run one_room_config initial_state
                             [Connect "C"; PostRooms ["A1B2C3"] 5;
                              JoinRoom "C" (JsString "NEW") (JsString "listener") 6;
                              PostRooms ["Z9Y8X7"] 7]))) <= 1.
Proof.
  apply (rooms_within_capacity one_room_config). eexists. reflexivity.
Defined.

(** ** Connections *)

Lemma step_connection_count cfg st i :
  connectionCount st = Z.of_nat (size (sockets st)) ->
  connectionCount st <= Z.max 0 (maxConnections cfg) ->
  connectionCount (step cfg st i).1 = Z.of_nat (size (sockets (step cfg st i).1))
  /\ connectionCount (step cfg st i).1 <= Z.max 0 (maxConnections cfg).
Proof.
  intros Hcount Hmax.
  assert (Hrelay : forall c' to ev now,
             let res := on_socket st c' (fun sk => relay st c' sk to ev now) in
             connectionCount res.1 = Z.of_nat (size (sockets res.1))
             /\ connectionCount res.1 <= Z.max 0 (maxConnections cfg)).
  { intros c' to ev now. unfold on_socket.
    destruct (sockets st !! c') as [sk|] eqn:E; [|done].
    rewrite relay_spec. destruct (_ <? _); [done|]. simpl.
    by rewrite map_size_insert_Some. }
  destruct i as [c'|c' v rolev now|c' to p now|c' to p now|c' to p now|c'|c'|c'|draws now|now];
    simpl; try apply Hrelay; unfold on_socket.
  - unfold connect. destruct (sockets st !! c') as [sk|] eqn:E; [done|].
    destruct (_ <? _) eqn:Hlt; simpl.
    + split; lia.
    + apply Z.ltb_ge in Hlt. rewrite map_size_insert_None by done. split; lia.
  - destruct (sockets st !! c') as [sk|] eqn:E; [|done].
    unfold join_room. destruct (invalid_room_id v); [done|].
    destruct v as [| | | |r|]; try done.
    destruct (match rooms st !! r with
              | Some _ => Some (rooms st)
              | None => if at_capacity cfg (rooms st) then None
                        else Some (<[r:=empty_room now]> (rooms st))
              end); [|done].
    destruct (if bool_decide (rolev = JsString "host") then _ else _) as [room' outs].
    simpl. by rewrite map_size_insert_Some.
  - by destruct (sockets st !! c').
  - by destruct (sockets st !! c').
  - destruct (sockets st !! c') as [sk|] eqn:E; [|done].
    unfold disconnect. destruct (handleDisconnect (rooms st) c' sk) as [rs outs].
    simpl. rewrite map_size_delete_Some by done.
    assert (size (sockets st) <> 0%nat).
    { apply map_size_non_empty_iff. intros Hempty. by rewrite Hempty in E. }
    split; lia.
  - unfold post_rooms. destruct (at_capacity cfg (rooms st)); [done|].
    by destruct (generateRoomId (rooms st) draws).
  - done.
Qed.

(** X4. The connection limit holds in every reachable state:
    [connectionCount] is exactly the number of live sockets (an over-limit
    connection is counted and uncounted at once, a disconnect uncounts once),
    and it never exceeds [config.maxConnections]. *)
Theorem connections_within_limit cfg st :
  reachable cfg st ->
  connectionCount st = Z.of_nat (size (sockets st))
  /\ connectionCount st <= Z.max 0 (maxConnections cfg).
Proof.
  revert st. apply reachable_ind'.
  - simpl. rewrite map_size_empty. lia.
  - intros st i _ [IH1 IH2]. by apply step_connection_count.
Qed.

Definition two_connections_config : Config := mkConfig 200 12 2.

Lemma connections_within_limit_witness :
  connectionCount (run two_connections_config initial_state
                       [Connect "A"; Connect "B"; Connect "C"; Disconnect "C";
                        Disconnect "A"; Connect "D"; Connect "E"]) <= 2.
Proof.
  apply (connections_within_limit two_connections_config). eexists. reflexivity.
Defined.

(** The socket an input comes from. *)
Definition sender (i : Input) : option string :=
  match i with
  | Connect c | JoinRoom c _ _ _ | Offer c _ _ _ | Answer c _ _ _
  | IceCandidate c _ _ _ | MuteStream c | UnmuteStream c | Disconnect c => Some c
  | PostRooms _ _ | Sweep _ => None
  end.

Lemma step_dead_socket cfg st c i :
  sockets st !! c = None -> sender i = Some c -> i <> Connect c ->
  step cfg st i = (st, []).
Proof.
  intros Hc Hs Hi. destruct i; simpl in Hs; simplify_eq; simpl; unfold on_socket;
    by rewrite ?Hc.
Qed.

(** X5. A connection refused for the connection limit is told "Server at
    capacity" and gets no handlers: when [connectionCount] has reached
    [maxConnections], a new connection leaves the state as it was (the
    counter is put back), and whatever that socket sends afterwards (a join,
    a signaling message, a mute, a disconnect) changes nothing and is
    answered by nothing. *)
Theorem connect_over_limit cfg st c i :
  sockets st !! c = None ->
  maxConnections cfg <= connectionCount st ->
  sender i = Some c -> i <> Connect c ->
  step cfg st (Connect c) = (st, [Emit c (EvError "Server at capacity")])
  /\ step cfg (step cfg st (Connect c)).1 i = (st, []).
Proof.
  intros Hc Hfull Hs Hi.
  assert (Hconn : step cfg st (Connect c) = (st, [Emit c (EvError "Server at capacity")])).
  { simpl. unfold connect. rewrite Hc.
    rewrite (proj2 (Z.ltb_lt _ _)) by lia.
    destruct st as [rs socks n]. simpl in *. do 2 f_equal. lia. }
  split; [exact Hconn|]. rewrite Hconn. simpl. by apply (step_dead_socket _ _ c).
Qed.

Lemma connect_over_limit_witness :
  let st := run two_connections_config initial_state [Connect "A"; Connect "B"] in
  step two_connections_config st (Connect "C")
    = (st, [Emit "C" (EvError "Server at capacity")])
  /\ step two_connections_config (step two_connections_config st (Connect "C")).1
          (JoinRoom "C" (JsString "R1") (JsString "host") 5) = (st, []).
Proof.
  intros st.
  apply (connect_over_limit two_connections_config st "C"
           (JoinRoom "C" (JsString "R1") (JsString "host") 5)).
  - vm_compute. reflexivity.
  - vm_compute. discriminate.
  - reflexivity.
  - discriminate.
Defined.

Lemma set_delete_idem x l : set_delete x (set_delete x l) = set_delete x l.
Proof.
  unfold set_delete. induction l as [|y l IH]; [done|].
  rewrite filter_cons. destruct (decide (y <> x)) as [Hy|Hy]; [|exact IH].
  rewrite filter_cons. destruct (decide (y <> x)); [by rewrite IH | done].
Qed.

(** X6. Running [handleDisconnect] a second time for the same socket leaves
    the registry exactly as the first run left it: nothing is removed or
    deleted twice. For a socket whose role is "host" the second run emits
    nothing. For a socket whose role is "listener" and whose room is still
    there after the first run, the second run emits what the first emitted
    once more ([listener-left] to the host, if any, and
    [listener-count-updated] to the room). *)
Theorem handleDisconnect_twice (rs : gmap string Room) (c : string) (sk : Socket) :
  let first := handleDisconnect rs c sk in
  let second := handleDisconnect first.1 c sk in
  second.1 = first.1
  /\ (role sk = JsString "host" -> second.2 = [])
  /\ (role sk = JsString "listener" ->
      forall r, roomId sk = Some r -> str_truthy r = true ->
                is_Some (first.1 !! r) ->
                second.2 = first.2
                /\ exists n, Broadcast c r (EvListenerCountUpdated n) ∈ second.2).
Proof.
  cbn zeta. unfold handleDisconnect.
  destruct (roomId sk) as [r|] eqn:Hr; [|by repeat split].
  destruct (str_truthy r) eqn:Ht; simpl.
  2: { split; [done|]. split; [done|]. intros _ r' Hr' Ht'. simplify_eq. congruence. }
  destruct (rs !! r) as [room|] eqn:Hroom.
  2: { simpl. rewrite Hroom. split; [done|]. split; [done|].
       intros _ r' Hr' _ [x Hx]. simplify_eq. }
  destruct (bool_decide (role sk = JsString "host")) eqn:Hhost; simpl.
  - apply bool_decide_eq_true in Hhost.
    assert (Hnl : bool_decide (role sk = JsString "listener") = false).
    { apply bool_decide_eq_false. rewrite Hhost. discriminate. }
    destruct (bool_decide (host room = Some c)) eqn:Hc; simpl.
    + destruct (length (listeners room) =? 0)%nat; simpl.
      * rewrite lookup_delete_eq. split; [done|]. split; [done|].
        intros Hl. rewrite Hhost in Hl. discriminate.
      * rewrite lookup_insert_eq. simpl.
        rewrite ?andb_false_r, ?Hnl. split; [done|]. split; [done|].
        intros Hl. rewrite Hhost in Hl. discriminate.
    + rewrite ?Hnl. simpl. rewrite ?Hroom, ?Hc, ?Hnl, ?andb_false_r. simpl.
      rewrite ?Hroom, ?Hc, ?Hnl, ?andb_false_r.
      split; [done|]. split; [done|].
      intros Hl. rewrite Hhost in Hl. discriminate.
  - destruct (bool_decide (role sk = JsString "listener")) eqn:Hl; simpl.
    2: { rewrite ?Hroom. simpl. split; [done|]. split; [done|].
         intros Hlis. by apply bool_decide_eq_false in Hl. }
    destruct (negb (opt_truthy (host room))
              && (length (set_delete c (listeners room)) =? 0)%nat) eqn:Hdel; simpl.
    + rewrite lookup_delete_eq. split; [done|]. split; [by intros _|].
      intros _ r' Hr' _ [x Hx]. simplify_eq. by rewrite lookup_delete_eq in Hx.
    + rewrite lookup_insert_eq. simpl. rewrite set_delete_idem, Hdel. simpl.
      rewrite insert_insert_eq. split; [done|].
      split; [intros Hh; apply bool_decide_eq_false in Hhost; done|].
      intros _ r' Hr' _ _. simplify_eq. split; [done|].
      exists (length (set_delete c (listeners room))).
      apply elem_of_app. right. by left.
Qed.

Lemma handleDisconnect_twice_witness :
  let first := handleDisconnect (rooms scenario_C) "L1"
                 (mkSocket (Some "R1") (JsString "listener") ({["R1"]} ∪ ∅) ∅) in
  let second := handleDisconnect first.1 "L1"
                  (mkSocket (Some "R1") (JsString "listener") ({["R1"]} ∪ ∅) ∅) in
  first.1 !! "R1" = Some (mkRoom (Some "H") ["L2"] 5)
  /\ second.1 = first.1
  /\ second.2 = first.2.
Proof.
  intros first second.
  assert (Hroom : first.1 !! "R1" = Some (mkRoom (Some "H") ["L2"] 5))
    by (vm_compute; reflexivity).
  split; [exact Hroom|].
  destruct (handleDisconnect_twice (rooms scenario_C) "L1"
              (mkSocket (Some "R1") (JsString "listener") ({["R1"]} ∪ ∅) ∅))
    as (H1 & _ & H3).
  split; [exact H1|].
  destruct (H3 eq_refl "R1" eq_refl eq_refl) as [H4 _]; [|exact H4].
  fold first. rewrite Hroom. by eexists.
Defined.

(** ** Successful joins *)

Lemma gets_here socks outs1 o outs2 c ev :
  receives socks o c = true -> out_event o = ev ->
  gets socks (outs1 ++ o :: outs2) c ev = true.
Proof.
  intros Hr He. unfold gets. rewrite existsb_app. simpl.
  rewrite Hr, He, bool_decide_eq_true_2 by done. simpl. apply orb_true_r.
Qed.

Lemma gets_elem socks outs o c ev :
  o ∈ outs -> receives socks o c = true -> out_event o = ev ->
  gets socks outs c ev = true.
Proof.
  intros Hin Hr He. apply list_elem_of_split in Hin as (l1 & l2 & ->).
  by apply gets_here.
Qed.

Lemma gets_inv socks outs c ev :
  gets socks outs c ev = true ->
  exists o, o ∈ outs /\ receives socks o c = true /\ out_event o = ev.
Proof.
  unfold gets. intros (o & Hin & Ho)%existsb_exists.
  apply andb_true_iff in Ho as [Hr He]. apply bool_decide_eq_true in He.
  exists o. by rewrite list_elem_of_In.
Qed.

Lemma in_io_room_own socks c sk :
  socks !! c = Some sk -> in_io_room socks c c = true.
Proof. intros H. unfold in_io_room. rewrite H. by rewrite bool_decide_eq_true_2. Qed.

Lemma in_io_room_insert_ne socks c sk c' x :
  c' <> c -> in_io_room (<[c := sk]> socks) c' x = in_io_room socks c' x.
Proof. intros Hne. unfold in_io_room. by rewrite lookup_insert_ne. Qed.

(** X7. A host join into a room that has no host (new or existing) succeeds:
    the joiner becomes the room's host, the listener set and the creation
    time are kept, the joiner receives [host-joined] with the room id and one
    [listener-joined] per listener already in the room, every such listener
    that is live receives [host-connected], and no error is sent. *)
Theorem host_join_succeeds cfg st c sk r now :
  sockets st !! c = Some sk ->
  invalid_room_id (JsString r) = false ->
  (rooms st !! r = None -> at_capacity cfg (rooms st) = false) ->
  (forall room, rooms st !! r = Some room -> opt_truthy (host room) = false) ->
  let room := default (empty_room now) (rooms st !! r) in
  let res := step cfg st (JoinRoom c (JsString r) (JsString "host") now) in
  rooms res.1 !! r = Some (mkRoom (Some c) (listeners room) (createdAt room))
  /\ (forall r', r' <> r -> rooms res.1 !! r' = rooms st !! r')
  /\ gets (sockets res.1) res.2 c (EvHostJoined r) = true
  /\ (forall l, l ∈ listeners room ->
        gets (sockets res.1) res.2 c (EvListenerJoined l) = true
        /\ (l <> c -> is_Some (sockets st !! l) ->
            gets (sockets res.1) res.2 l EvHostConnected = true))
  /\ (forall c' msg, gets (sockets res.1) res.2 c' (EvError msg) = false).
Proof.
  intros Hc Hv Hcap Hfree room res.
  assert (Hroom : opt_truthy (host room) = false).
  { unfold room. destruct (rooms st !! r) as [rm|] eqn:E; simpl; [by apply Hfree | done]. }
  assert (Hres : res = join_room cfg st c sk (JsString r) (JsString "host") now).
  { unfold res. simpl. by rewrite (on_socket_live _ _ sk). }
  rewrite join_room_accepted in Hres by done. cbn zeta in Hres.
  rewrite bool_decide_eq_true_2 in Hres by done.
  fold room in Hres. unfold handleHostJoin in Hres. rewrite Hroom in Hres.
  rewrite Hres. cbn [fst snd rooms sockets]. split; [by rewrite lookup_insert_eq|].
  split; [intros r' Hne; by rewrite lookup_insert_ne|].
  split.
  { unfold gets. simpl. by rewrite !bool_decide_eq_true_2. }
  split.
  - intros l Hl. split.
    + eapply (gets_elem _ _ (Emit c (EvListenerJoined l))); [|simpl|done].
      * right. apply list_elem_of_In, in_flat_map. exists l.
        split; [by apply list_elem_of_In | right; by left].
      * by rewrite bool_decide_eq_true_2.
    + intros Hne [skl Hskl].
      eapply (gets_elem _ _ (Broadcast c l EvHostConnected)); [|simpl|done].
      * right. apply list_elem_of_In, in_flat_map. exists l.
        split; [by apply list_elem_of_In | by left].
      * rewrite bool_decide_eq_false_2 by done. simpl.
        rewrite in_io_room_insert_ne by done. by eapply in_io_room_own.
  - intros c' msg. destruct (gets _ _ c' (EvError msg)) eqn:Hg; [|done].
    apply gets_inv in Hg as (o & Hin & _ & He). exfalso.
    apply elem_of_cons in Hin as [->|Hin]; [discriminate He|].
    apply list_elem_of_In, in_flat_map in Hin as (l & _ & Hin).
    destruct Hin as [<-|[<-|[]]]; discriminate He.
Qed.

(** Two listeners wait in a room; then the host arrives. *)
Definition scenario_late_host : State :=
  run demo_config initial_state
      [Connect "H"; Connect "L1"; Connect "L2";
       JoinRoom "L1" (JsString "R1") (JsString "listener") 5;
       JoinRoom "L2" (JsString "R1") (JsString "listener") 6].

Lemma host_join_succeeds_witness :
  let res := step demo_config scenario_late_host
                  (JoinRoom "H" (JsString "R1") (JsString "host") 7) in
  rooms res.1 !! "R1" = Some (mkRoom (Some "H") ["L1"; "L2"] 5)
  /\ gets (sockets res.1) res.2 "H" (EvListenerJoined "L2") = true
  /\ gets (sockets res.1) res.2 "L2" EvHostConnected = true.
Proof.
  intros res.
  destruct (host_join_succeeds demo_config scenario_late_host "H"
              (mkSocket None JsUndefined ∅ ∅) "R1" 7)
    as (H1 & _ & _ & H4 & _).
  - vm_compute. reflexivity.
  - reflexivity.
  - intros _. vm_compute. reflexivity.
  - intros room. vm_compute. intros Hroom. injection Hroom as <-. reflexivity.
  - split; [exact H1|].
    assert (Hroom : rooms scenario_late_host !! "R1"
                    = Some (mkRoom None ["L1"; "L2"] 5)) by (vm_compute; reflexivity).
    destruct (H4 "L2") as [Ha Hb]; [rewrite Hroom; simpl; right; by left|].
    split; [exact Ha|]. apply Hb; [discriminate|].
    exists (mkSocket (Some "R1") (JsString "listener") ({["R1"]} ∪ ∅) ∅).
    vm_compute. reflexivity.
Defined.

Lemma set_add_old x l : x ∈ l -> set_add x l = l.
Proof. intros H. unfold set_add. by rewrite bool_decide_eq_true_2. Qed.

Lemma set_add_new x l : x ∉ l -> set_add x l = l ++ [x].
Proof. intros H. unfold set_add. by rewrite bool_decide_eq_false_2. Qed.

(** X8. A listener join that is not refused: the joiner is in the room's
    listener set afterwards, once (a socket already in the set is not added
    again, a new one makes the set one larger), host and creation time are
    kept; the joiner receives [listener-joined] with the room id. If the room
    has a host, the joiner also receives [host-connected] and the host, when
    live, receives [listener-joined] with the joiner's id; if it has none,
    nobody receives either of the two. No error is sent. *)
Theorem listener_join_succeeds cfg st c sk r now :
  sockets st !! c = Some sk ->
  invalid_room_id (JsString r) = false ->
  (rooms st !! r = None -> at_capacity cfg (rooms st) = false) ->
  let room := default (empty_room now) (rooms st !! r) in
  let res := step cfg st (JoinRoom c (JsString r) (JsString "listener") now) in
  rooms res.1 !! r
    = Some (mkRoom (host room) (set_add c (listeners room)) (createdAt room))
  /\ (c ∈ listeners room -> set_add c (listeners room) = listeners room)
  /\ (c ∉ listeners room ->
      length (set_add c (listeners room)) = S (length (listeners room)))
  /\ gets (sockets res.1) res.2 c (EvListenerJoinedRoom r) = true
  /\ (forall h, host room = Some h -> str_truthy h = true ->
        gets (sockets res.1) res.2 c EvHostConnected = true
        /\ (h <> c -> is_Some (sockets st !! h) ->
            gets (sockets res.1) res.2 h (EvListenerJoined c) = true))
  /\ (opt_truthy (host room) = false ->
      forall c', gets (sockets res.1) res.2 c' EvHostConnected = false
                 /\ gets (sockets res.1) res.2 c' (EvListenerJoined c) = false)
  /\ (forall c' msg, gets (sockets res.1) res.2 c' (EvError msg) = false).
Proof.
  intros Hc Hv Hcap room res.
  assert (Hres : res = join_room cfg st c sk (JsString r) (JsString "listener") now).
  { unfold res. simpl. by rewrite (on_socket_live _ _ sk). }
  rewrite join_room_accepted in Hres by done. cbn zeta in Hres.
  rewrite bool_decide_eq_false_2 in Hres by done.
  rewrite bool_decide_eq_true_2 in Hres by done.
  fold room in Hres. unfold handleListenerJoin in Hres. cbn zeta in Hres.
  rewrite Hres. cbn [fst snd rooms sockets host listeners createdAt].
  split; [by rewrite lookup_insert_eq|].
  split; [apply set_add_old|].
  split.
  { intros Hnew. rewrite set_add_new by done. rewrite length_app. simpl. lia. }
  split.
  { unfold gets. simpl. by rewrite !bool_decide_eq_true_2. }
  split; [|split].
  - intros h Hh Ht. rewrite Hh, Ht. split.
    + eapply (gets_elem _ _ (Emit c EvHostConnected)); [|simpl|done].
      * right. right. by left.
      * by rewrite bool_decide_eq_true_2.
    + intros Hne [skh Hskh].
      eapply (gets_elem _ _ (Broadcast c h (EvListenerJoined c))); [|simpl|done].
      * right. by left.
      * rewrite bool_decide_eq_false_2 by done. simpl.
        rewrite in_io_room_insert_ne by done. by eapply in_io_room_own.
  - intros Hnone c'.
    assert (Hpart : match host room with
                    | Some h => if str_truthy h
                                then [Broadcast c h (EvListenerJoined c); Emit c EvHostConnected]
                                else []
                    | None => []
                    end = []).
    { destruct (host room) as [h|]; simpl in Hnone; [by rewrite Hnone | done]. }
    rewrite Hpart. cbn [app]. split.
    + destruct (gets _ _ c' EvHostConnected) eqn:Hg; [|done].
      apply gets_inv in Hg as (o & Hin & _ & He). exfalso.
      apply elem_of_cons in Hin as [->|Hin]; [discriminate He|].
      apply list_elem_of_singleton in Hin as ->. discriminate He.
    + destruct (gets _ _ c' (EvListenerJoined c)) eqn:Hg; [|done].
      apply gets_inv in Hg as (o & Hin & _ & He). exfalso.
      apply elem_of_cons in Hin as [->|Hin]; [discriminate He|].
      apply list_elem_of_singleton in Hin as ->. discriminate He.
  - intros c' msg. destruct (gets _ _ c' (EvError msg)) eqn:Hg; [|done].
    apply gets_inv in Hg as (o & Hin & _ & He). exfalso.
    apply elem_of_cons in Hin as [->|Hin]; [discriminate He|].
    apply elem_of_app in Hin as [Hin|Hin].
    + destruct (host room) as [h|]; [destruct (str_truthy h)|];
        try (by apply elem_of_nil in Hin).
      apply elem_of_cons in Hin as [->|Hin]; [discriminate He|].
      apply list_elem_of_singleton in Hin as ->. discriminate He.
    + apply list_elem_of_singleton in Hin as ->. discriminate He.
Qed.

Lemma listener_join_succeeds_witness :
  let res := step demo_config scenario_A
                  (JoinRoom "L1" (JsString "ABC123") (JsString "listener") 6) in
  rooms res.1 !! "ABC123" = Some (mkRoom (Some "H") ["L1"] 5)
  /\ gets (sockets res.1) res.2 "L1" EvHostConnected = true
  /\ gets (sockets res.1) res.2 "H" (EvListenerJoined "L1") = true.
Proof.
  intros res.
  assert (Hroom : rooms scenario_A !! "ABC123" = Some (mkRoom (Some "H") [] 5))
    by (vm_compute; reflexivity).
  destruct (listener_join_succeeds demo_config scenario_A "L1"
              (mkSocket None JsUndefined ∅ ∅) "ABC123" 6)
    as (H1 & _ & _ & _ & H5 & _).
  - vm_compute. reflexivity.
  - reflexivity.
  - intros _. vm_compute. reflexivity.
  - rewrite Hroom in H1, H5. simpl in H1, H5.
    split; [exact H1|].
    destruct (H5 "H" eq_refl eq_refl) as [Ha Hb]. split; [exact Ha|].
    apply Hb; [discriminate|].
    exists (mkSocket (Some "ABC123") (JsString "host") ({["ABC123"]} ∪ ∅) ∅).
    vm_compute. reflexivity.
Defined.

(** ** Listener disconnects *)

Lemma set_delete_elem x y l : y ∈ set_delete x l <-> y <> x /\ y ∈ l.
Proof. unfold set_delete. by rewrite list_elem_of_filter. Qed.

(** The listener branch of [handleDisconnect]. *)
Lemma handleDisconnect_listener rs c sk r room :
  roomId sk = Some r -> str_truthy r = true ->
  role sk = JsString "listener" ->
  rs !! r = Some room ->
  handleDisconnect rs c sk =
    let ls := set_delete c (listeners room) in
    (if negb (opt_truthy (host room)) && (length ls =? 0)%nat then delete r rs
     else <[r := mkRoom (host room) ls (createdAt room)]> rs,
     match host room with
     | Some h => if str_truthy h then [Broadcast c h (EvListenerLeft c)] else []
     | None => []
     end ++ [Broadcast c r (EvListenerCountUpdated (length ls))]).
Proof.
  intros Hr Ht Hrole Hl. unfold handleDisconnect.
  rewrite Hr, Ht, Hl, Hrole. simpl. by destruct (_ && _).
Qed.

(** X9. The disconnect of a listener (a live connection whose session has
    role "listener" and names an existing room), in a reachable state: the
    connection leaves the room's listener set and nobody else does; the host,
    when there is one and it is live, receives [listener-left] with the
    leaver's id; every other member of the room receives
    [listener-count-updated] with the new size; the room is deleted exactly
    when it has no host and no listener is left, and otherwise keeps its host
    and creation time; no other room changes. *)
Theorem listener_disconnect cfg st c sk r room :
  reachable cfg st ->
  sockets st !! c = Some sk ->
  roomId sk = Some r -> role sk = JsString "listener" ->
  rooms st !! r = Some room ->
  let ls := set_delete c (listeners room) in
  let res := step cfg st (Disconnect c) in
  (forall x, x ∈ ls <-> x <> c /\ x ∈ listeners room)
  /\ (rooms res.1 !! r = None <-> opt_truthy (host room) = false /\ ls = [])
  /\ (forall room', rooms res.1 !! r = Some room' ->
        room' = mkRoom (host room) ls (createdAt room))
  /\ (forall r', r' <> r -> rooms res.1 !! r' = rooms st !! r')
  /\ (forall h, host room = Some h -> str_truthy h = true ->
        h <> c -> is_Some (sockets st !! h) ->
        gets (sockets res.1) res.2 h (EvListenerLeft c) = true)
  /\ (forall c', c' <> c -> in_io_room (sockets st) c' r = true ->
        gets (sockets res.1) res.2 c' (EvListenerCountUpdated (length ls)) = true).
Proof.
  intros Hreach Hc Hr Hrole Hl ls res.
  pose proof (valid_truthy _ (wf_session _ (wf_reachable _ _ Hreach) _ _ _ Hc Hr)) as Ht.
  assert (Hres : res = disconnect st c sk).
  { unfold res. simpl. by rewrite (on_socket_live _ _ sk). }
  unfold disconnect in Hres.
  rewrite (handleDisconnect_listener _ _ _ r room) in Hres by done.
  cbn zeta in Hres. fold ls in Hres. rewrite Hres. cbn [fst snd rooms sockets].
  split; [intros x; apply set_delete_elem|].
  assert (Hempty : (length ls =? 0)%nat = true <-> ls = []).
  { rewrite Nat.eqb_eq. by destruct ls. }
  split; [|split; [|split; [|split]]].
  - destruct (negb (opt_truthy (host room)) && (length ls =? 0)%nat) eqn:Hdel.
    + rewrite lookup_delete_eq. apply andb_true_iff in Hdel as [H1 H2].
      apply negb_true_iff in H1. apply Hempty in H2. done.
    + rewrite lookup_insert_eq. split; [done|]. intros [H1 H2].
      rewrite H1 in Hdel. apply Hempty in H2. rewrite H2 in Hdel. done.
  - intros room'. destruct (_ && _).
    + by rewrite lookup_delete_eq.
    + rewrite lookup_insert_eq. by intros; simplify_eq.
  - intros r' Hne. destruct (_ && _).
    + by rewrite lookup_delete_ne.
    + by rewrite lookup_insert_ne.
  - intros h Hh Hth Hne [skh Hskh]. rewrite Hh, Hth.
    eapply (gets_elem _ _ (Broadcast c h (EvListenerLeft c))); [by left|simpl|done].
    rewrite bool_decide_eq_false_2 by done. simpl.
    rewrite in_io_room_delete by done. by eapply in_io_room_own.
  - intros c' Hne Hin.
    eapply (gets_elem _ _ (Broadcast c r (EvListenerCountUpdated (length ls))));
      [|simpl|done].
    + apply elem_of_app. right. by left.
    + rewrite bool_decide_eq_false_2 by done. simpl.
      by rewrite in_io_room_delete.
Qed.

(** Scenario D of the specification: the last listener leaves a room that
    has no host. *)
Definition scenario_D : State :=
  run demo_config initial_state
      [Connect "L1"; JoinRoom "L1" (JsString "R1") (JsString "listener") 5].

Lemma listener_disconnect_witness :
  rooms (step demo_config scenario_D (Disconnect "L1")).1 !! "R1" = None
  /\ get_room (step demo_config scenario_D (Disconnect "L1")).1 "R1" = None.
Proof.
  destruct (listener_disconnect demo_config scenario_D "L1"
              (mkSocket (Some "R1") (JsString "listener") ({["R1"]} ∪ ∅) ∅)
              "R1" (mkRoom None ["L1"] 5))
    as (_ & H2 & _).
  - eexists. reflexivity.
  - vm_compute. reflexivity.
  - reflexivity.
  - reflexivity.
  - vm_compute. reflexivity.
  - assert (Hgone : rooms (step demo_config scenario_D (Disconnect "L1")).1 !! "R1" = None).
    { apply H2. split; [reflexivity | vm_compute; reflexivity]. }
    split; [exact Hgone|]. unfold get_room. by rewrite Hgone.
Defined.

(** ** The periodic sweep *)

Lemma sweep_lookup_None cfg rs now r :
  rs !! r = None -> sweep cfg rs now !! r = None.
Proof. intros Hr. unfold sweep. apply map_lookup_filter_None. by left. Qed.

Lemma stale_false cfg now room :
  stale cfg now room = false <->
  opt_truthy (host room) = true \/ listeners room <> []
  \/ now - createdAt room <= maxAge cfg.
Proof.
  unfold stale. destruct (opt_truthy (host room)); simpl.
  { split; [by left | done]. }
  destruct (listeners room) as [|l ls]; simpl.
  - rewrite Z.ltb_ge. split; [by right; right|]. by intros [?|[?|?]].
  - split; [right; by left | done].
Qed.

(** X10. The sweep deletes exactly the rooms that have no host, no listener
    and an age above [roomTimeout] hours: a room with a host, with a
    listener, or not older than the timeout is kept as it is; no room
    appears; sockets are untouched and nothing is emitted; and a second
    sweep at the same time finds nothing left to delete. *)
Theorem sweep_deletes_only_stale cfg st now :
  let res := step cfg st (Sweep now) in
  res.2 = []
  /\ sockets res.1 = sockets st
  /\ (forall r room,
        rooms st !! r = Some room ->
        (opt_truthy (host room) = true \/ listeners room <> []
         \/ now - createdAt room <= roomTimeout cfg * 3600000) ->
        rooms res.1 !! r = Some room)
  /\ (forall r room,
        rooms st !! r = Some room ->
        opt_truthy (host room) = false -> listeners room = [] ->
        roomTimeout cfg * 3600000 < now - createdAt room ->
        rooms res.1 !! r = None)
  /\ (forall r, rooms st !! r = None -> rooms res.1 !! r = None)
  /\ rooms (step cfg res.1 (Sweep now)).1 = rooms res.1.
Proof.
  assert (Hage : maxAge cfg = roomTimeout cfg * 3600000) by (unfold maxAge; lia).
  simpl. repeat split.
  - intros r room Hr Hkeep. rewrite (sweep_lookup _ _ _ _ room) by done.
    rewrite <- Hage in Hkeep. apply stale_false in Hkeep. by rewrite Hkeep.
  - intros r room Hr Hh Hl Hold. rewrite (sweep_lookup _ _ _ _ room) by done.
    unfold stale. rewrite Hh, Hl, Hage. simpl.
    by rewrite (proj2 (Z.ltb_lt _ _) Hold).
  - intros r. apply sweep_lookup_None.
  - apply map_eq. intros r.
    destruct (sweep cfg (rooms st) now !! r) as [room|] eqn:E.
    + rewrite (sweep_lookup _ _ _ _ room) by done.
      unfold sweep in E. apply map_lookup_filter_Some in E as [_ Hs].
      simpl in Hs. by rewrite Hs.
    + by apply sweep_lookup_None.
Qed.

Lemma sweep_deletes_only_stale_witness :
  rooms (step demo_config scenario_D (Sweep (5 + 100 * 3600000))).1 !! "R1"
  = Some (mkRoom None ["L1"] 5).
Proof.
  destruct (sweep_deletes_only_stale demo_config scenario_D (5 + 100 * 3600000))
    as (_ & _ & Hkeep & _).
  apply Hkeep; [vm_compute; reflexivity|]. right. left. discriminate.
Defined.

(** X11. Scenario F: a room made by [POST /api/rooms] and never joined
    is still reported, without host or listeners, after a sweep that comes
    within the timeout of its creation, and is gone after a sweep that comes
    later. *)
Theorem created_room_expires cfg st draws now r now' :
  (post_rooms cfg st draws now).2 = RoomCreated r ->
  rooms st !! r = None ->
  let created := (step cfg st (PostRooms draws now)).1 in
  let swept := (step cfg created (Sweep now')).1 in
  get_room created r = Some (mkRoomInfo false 0 false now)
  /\ (now' - now <= roomTimeout cfg * 3600000 ->
      get_room swept r = Some (mkRoomInfo false 0 false now))
  /\ (roomTimeout cfg * 3600000 < now' - now -> get_room swept r = None).
Proof.
  intros Hresp Hfresh created swept.
  assert (Hage : maxAge cfg = roomTimeout cfg * 3600000) by (unfold maxAge; lia).
  assert (Hroom : rooms created !! r = Some (empty_room now)).
  { unfold created. simpl. unfold post_rooms in *.
    destruct (at_capacity cfg (rooms st)); [discriminate Hresp|].
    destruct (generateRoomId (rooms st) draws) as [r0|]; [|discriminate Hresp].
    simpl in Hresp. injection Hresp as ->. rewrite Hfresh. simpl.
    by rewrite lookup_insert_eq. }
  split; [unfold get_room; by rewrite Hroom|].
  unfold swept, get_room. simpl.
  rewrite (sweep_lookup _ _ _ _ (empty_room now)) by done.
  unfold stale. simpl. rewrite Hage. split.
  - intros Hle. by rewrite (proj2 (Z.ltb_ge _ _) Hle).
  - intros Hlt. by rewrite (proj2 (Z.ltb_lt _ _) Hlt).
Qed.

Lemma created_room_expires_witness :
  let created := (step demo_config initial_state (PostRooms ["A1B2C3"] 1000)).1 in
  get_room (step demo_config created (Sweep (1000 + 11 * 3600000))).1 "A1B2C3"
    = Some (mkRoomInfo false 0 false 1000)
  /\ get_room (step demo_config created (Sweep (1000 + 13 * 3600000))).1 "A1B2C3" = None.
Proof.
  intros created. split.
  - apply (created_room_expires demo_config initial_state ["A1B2C3"] 1000 "A1B2C3"
             (1000 + 11 * 3600000)); [reflexivity | reflexivity | vm_compute; discriminate].
  - apply (created_room_expires demo_config initial_state ["A1B2C3"] 1000 "A1B2C3"
             (1000 + 13 * 3600000)); [reflexivity | reflexivity | vm_compute; reflexivity].
Defined.

(** ** Listing the active rooms *)

Record RoomSummary := mkRoomSummary {
  summaryRoomId : string;
  summaryListenerCount : nat;
  summaryCreatedAt : Z;
}.

Record RoomsListing := mkRoomsListing {
  activeRooms : list RoomSummary;
  total : nat;
  listingMaxRooms : Z;
  connections : Z;
}.

(** [GET /api/rooms]: the rooms that have a host. The source lists them in
    the insertion order of the [rooms] Map; the registry of this embedding
    keeps no order, so the list is the source's up to the order of its
    entries. *)
Definition get_rooms (cfg : Config) (st : State) : RoomsListing :=
  let active :=
    (fun kv : string * Room =>
       mkRoomSummary kv.1 (length (listeners kv.2)) (createdAt kv.2))
      <$> filter (fun kv : string * Room => opt_truthy (host kv.2) = true)
                 (map_to_list (rooms st)) in
  mkRoomsListing active (length active) (maxRooms cfg) (connectionCount st).

(** X12. The list of active rooms agrees with the single-room query: a room
    is listed exactly when [GET /api/rooms/:roomId] reports it active, with
    the same listener count and creation time; no room is listed twice;
    [total] is the length of the list and is at most the number of rooms. *)
Theorem get_rooms_agrees_with_get_room cfg st :
  (forall s, s ∈ activeRooms (get_rooms cfg st) <->
             get_room st (summaryRoomId s)
             = Some (mkRoomInfo true (summaryListenerCount s) true (summaryCreatedAt s)))
  /\ NoDup (summaryRoomId <$> activeRooms (get_rooms cfg st))
  /\ total (get_rooms cfg st) = length (activeRooms (get_rooms cfg st))
  /\ (total (get_rooms cfg st) <= size (rooms st))%nat.
Proof.
  unfold get_rooms. simpl. split; [|split; [|split]].
  - intros [r n t]. simpl. rewrite list_elem_of_fmap. unfold get_room. split.
    + intros ([r' room] & Heq & Hin). simpl in Heq. injection Heq as -> -> ->.
      apply list_elem_of_filter in Hin as [Hh Hin]. simpl in Hh.
      apply elem_of_map_to_list in Hin. by rewrite Hin, Hh.
    + destruct (rooms st !! r) as [room|] eqn:Hr; [|done].
      intros Heq. injection Heq as Hh <- _ <-.
      exists (r, room). split; [done|]. apply list_elem_of_filter. split; [done|].
      by apply elem_of_map_to_list.
  - rewrite <- list_fmap_compose.
    assert (Heq : (summaryRoomId ∘ (fun kv : string * Room =>
                     mkRoomSummary kv.1 (length (listeners kv.2)) (createdAt kv.2)))
                  <$> filter (fun kv : string * Room => opt_truthy (host kv.2) = true)
                             (map_to_list (rooms st))
                  = (filter (fun kv : string * Room => opt_truthy (host kv.2) = true)
                            (map_to_list (rooms st))).*1).
    { by apply list_fmap_ext. }
    rewrite Heq. clear Heq.
    pose proof (NoDup_fst_map_to_list (rooms st)) as Hnd.
    induction (map_to_list (rooms st)) as [|kv l IH]; [constructor|].
    simpl in Hnd. apply NoDup_cons in Hnd as [Hnotin Hnd].
    rewrite filter_cons. destruct (decide _); [|by apply IH].
    simpl. apply NoDup_cons. split; [|by apply IH].
    intros Hin. apply Hnotin.
    apply list_elem_of_fmap in Hin as (kv' & -> & Hin').
    apply list_elem_of_filter in Hin' as [_ Hin'].
    apply list_elem_of_fmap. by exists kv'.
  - done.
  - rewrite length_fmap. etrans; [apply length_filter|].
    by rewrite length_map_to_list.
Qed.

(** ** Relay addressing *)

Inductive SignalKind := KOffer | KAnswer | KIceCandidate.

(** The signaling message of kind [k] from [c] to [to], and the event the
    server forwards for it. *)
Definition signal (k : SignalKind) (c to payload : string) (now : Z) : Input :=
  match k with
  | KOffer => Offer c to payload now
  | KAnswer => Answer c to payload now
  | KIceCandidate => IceCandidate c to payload now
  end.

Definition signal_event (k : SignalKind) (c payload : string) : Event :=
  match k with
  | KOffer => EvOffer c payload
  | KAnswer => EvAnswer c payload
  | KIceCandidate => EvIceCandidate c payload
  end.

Lemma in_io_room_set_limit socks c sk lim c' x :
  socks !! c = Some sk ->
  in_io_room (<[c := set_limit sk lim]> socks) c' x = in_io_room socks c' x.
Proof.
  intros Hc. unfold in_io_room. destruct (decide (c = c')) as [<-|Hne].
  - by rewrite lookup_insert_eq, Hc.
  - by rewrite lookup_insert_ne.
Qed.

(** X13. Where a forwarded signaling message goes. For a live sender whose
    message passes the rate limit, the server emits one event of the same
    kind, with the payload as sent and [from] set to the sender's own socket
    id, and touches no room. It is received by exactly the live sockets other
    than the sender that are in the Socket.IO room named by [to]: the
    addressed socket when [to] is the id of a live socket (whatever rooms
    sender and addressee are in), and nobody when no live socket is in that
    room. The sender never receives its own message. *)
Theorem relay_addressing cfg st c sk k to payload now :
  sockets st !! c = Some sk ->
  50 <= now - default 0 (signalRateLimit sk !! c) ->
  let res := step cfg st (signal k c to payload now) in
  res.2 = [Broadcast c to (signal_event k c payload)]
  /\ rooms res.1 = rooms st
  /\ (forall c' ev, gets (sockets res.1) res.2 c' ev = true <->
        ev = signal_event k c payload /\ c' <> c /\ in_io_room (sockets st) c' to = true)
  /\ (to <> c -> is_Some (sockets st !! to) ->
      gets (sockets res.1) res.2 to (signal_event k c payload) = true)
  /\ ((forall c', in_io_room (sockets st) c' to = false) ->
      forall c' ev, gets (sockets res.1) res.2 c' ev = false).
Proof.
  intros Hc Hpass res.
  assert (Hres : res = relay st c sk to (signal_event k c payload) now).
  { unfold res. destruct k; simpl; by rewrite (on_socket_live _ _ sk). }
  rewrite relay_spec in Hres. rewrite (proj2 (Z.ltb_ge _ _) Hpass) in Hres.
  assert (Hgets : forall c' ev,
             gets (sockets res.1) res.2 c' ev = true <->
             ev = signal_event k c payload /\ c' <> c
             /\ in_io_room (sockets st) c' to = true).
  { intros c' ev. rewrite Hres. unfold gets. simpl.
    rewrite orb_false_r, !andb_true_iff, negb_true_iff, bool_decide_eq_false,
      bool_decide_eq_true.
    rewrite in_io_room_set_limit by done.
    split; [intros [[? ?] ?] | intros (? & ? & ?)]; by repeat split. }
  split; [by rewrite Hres|]. split; [by rewrite Hres|]. split; [exact Hgets|].
  split.
  - intros Hne [skt Hskt]. apply Hgets. split; [done|]. split; [done|].
    by eapply in_io_room_own.
  - intros Hnone c' ev. destruct (gets _ _ c' ev) eqn:Hg; [|done].
    apply Hgets in Hg as (_ & _ & Hin). by rewrite Hnone in Hin.
Qed.

Lemma relay_addressing_witness :
  let res := step demo_config scenario_C (signal KOffer "H" "L2" "sdp" 1000) in
  res.2 = [Broadcast "H" "L2" (EvOffer "H" "sdp")]
  /\ gets (sockets res.1) res.2 "L2" (EvOffer "H" "sdp") = true.
Proof.
  intros res.
  destruct (relay_addressing demo_config scenario_C "H"
              (mkSocket (Some "R1") (JsString "host") ({["R1"]} ∪ ∅) ∅)
              KOffer "L2" "sdp" 1000)
    as (H1 & _ & _ & H4 & _).
  - vm_compute. reflexivity.
  - vm_compute. discriminate.
  - split; [exact H1|]. apply H4; [discriminate|].
    exists (mkSocket (Some "R1") (JsString "listener") ({["R1"]} ∪ ∅) ∅).
    vm_compute. reflexivity.
Defined.

(** ** Sessions *)

(** X14. In every reachable state a live connection whose session names a
    room is a member of the Socket.IO room of that name, so it is among the
    receivers of every broadcast another socket makes to that room, and the
    room id on a session is always one that passed validation (a non-empty
    string of at most 10 characters). *)
Theorem session_room_membership cfg st c sk r :
  reachable cfg st ->
  sockets st !! c = Some sk -> roomId sk = Some r ->
  r ∈ joined sk
  /\ (1 <= String.length r <= 10)%nat
  /\ forall c' ev, c' <> c ->
       gets (sockets st) [Broadcast c' r ev] c ev = true.
Proof.
  intros Hreach Hc Hr.
  assert (Hin : r ∈ joined sk).
  { revert st Hreach c sk r Hc Hr.
    apply (reachable_ind' cfg (fun st => forall c sk r,
             sockets st !! c = Some sk -> roomId sk = Some r -> r ∈ joined sk)).
    { intros c sk r Hc. simpl in Hc. by rewrite lookup_empty in Hc. }
    intros st i _ IH c sk r.
    assert (Hrelay : forall c' to ev now,
               sockets (on_socket st c' (fun sk => relay st c' sk to ev now)).1 !! c
               = Some sk -> roomId sk = Some r -> r ∈ joined sk).
    { intros c' to ev now. unfold on_socket.
      destruct (sockets st !! c') as [sk'|] eqn:E; [|by eauto].
      rewrite relay_spec. destruct (_ <? _); [by eauto|]. simpl.
      destruct (decide (c' = c)) as [->|Hne].
      - rewrite lookup_insert_eq. intros; simplify_eq. simpl in *. eauto.
      - rewrite lookup_insert_ne by done. eauto. }
    destruct i as [c'|c' v rolev now|c' to p now|c' to p now|c' to p now|c'|c'|c'|draws now|now];
      simpl; try apply Hrelay; unfold on_socket.
    - unfold connect. destruct (sockets st !! c') eqn:E; [by eauto|].
      destruct (_ <? _); simpl; [by eauto|].
      destruct (decide (c' = c)) as [->|Hne].
      + rewrite lookup_insert_eq. by intros; simplify_eq.
      + rewrite lookup_insert_ne by done. eauto.
    - destruct (sockets st !! c') as [sk'|] eqn:E; [|by eauto].
      unfold join_room. destruct (invalid_room_id v); [by eauto|].
      destruct v as [| | | |r0|]; try (by eauto).
      destruct (match rooms st !! r0 with
                | Some _ => Some (rooms st)
                | None => if at_capacity cfg (rooms st) then None
                          else Some (<[r0:=empty_room now]> (rooms st))
                end); [|by eauto].
      destruct (if bool_decide (rolev = JsString "host") then _ else _) as [room' outs].
      simpl. destruct (decide (c' = c)) as [->|Hne].
      + rewrite lookup_insert_eq. intros; simplify_eq. simpl in *.
        simplify_eq. set_solver.
      + rewrite lookup_insert_ne by done. eauto.
    - destruct (sockets st !! c'); eauto.
    - destruct (sockets st !! c'); eauto.
    - destruct (sockets st !! c') as [sk'|] eqn:E; [|by eauto].
      unfold disconnect. destruct (handleDisconnect (rooms st) c' sk') as [rs outs].
      simpl. intros Hl. apply lookup_delete_Some in Hl as [_ Hl]. eauto.
    - unfold post_rooms. destruct (at_capacity cfg (rooms st)); [by eauto|].
      destruct (generateRoomId (rooms st) draws); simpl; eauto.
    - eauto. }
  split; [exact Hin|]. split.
  - apply invalid_room_id_string.
    exact (wf_session _ (wf_reachable _ _ Hreach) _ _ _ Hc Hr).
  - intros c' ev Hne. unfold gets. simpl.
    rewrite (bool_decide_eq_false_2 (c = c')) by done. simpl.
    rewrite (in_io_room_joined _ _ sk) by done.
    by rewrite bool_decide_eq_true_2.
Qed.

Lemma session_room_membership_witness :
  gets (sockets scenario_C) [Broadcast "H" "R1" EvHostMuted] "L2" EvHostMuted = true.
Proof.
  destruct (session_room_membership demo_config scenario_C "L2"
              (mkSocket (Some "R1") (JsString "listener") ({["R1"]} ∪ ∅) ∅) "R1")
    as (_ & _ & H).
  - eexists. reflexivity.
  - vm_compute. reflexivity.
  - reflexivity.
  - apply H. discriminate.
Defined.

(** ** What keeps a host and a listener in place *)

(** What [handleDisconnect] can do to a room of the registry. *)
Lemma handleDisconnect_cases rs c sk r room :
  rs !! r = Some room ->
  (handleDisconnect rs c sk).1 !! r = Some room
  \/ (role sk = JsString "host" /\ host room = Some c
      /\ (handleDisconnect rs c sk).1 !! r
         = if (length (listeners room) =? 0)%nat then None
           else Some (mkRoom None (listeners room) (createdAt room)))
  \/ (role sk = JsString "listener"
      /\ (handleDisconnect rs c sk).1 !! r
         = if negb (opt_truthy (host room))
              && (length (set_delete c (listeners room)) =? 0)%nat
           then None
           else Some (mkRoom (host room) (set_delete c (listeners room))
                             (createdAt room))).
Proof.
  intros Hr. unfold handleDisconnect.
  destruct (roomId sk) as [r0|]; [|by left].
  destruct (negb (str_truthy r0)); [by left|].
  destruct (decide (r0 = r)) as [->|Hne].
  - rewrite Hr.
    destruct (bool_decide (role sk = JsString "host")) eqn:Hrole;
      [destruct (bool_decide (host room = Some c)) eqn:Hhost|]; simpl.
    + apply bool_decide_eq_true in Hrole, Hhost. right. left.
      split; [done|]. split; [done|].
      destruct (_ =? _)%nat; simpl; [apply lookup_delete_eq | apply lookup_insert_eq].
    + apply bool_decide_eq_true in Hrole. rewrite Hrole. simpl. by left.
    + destruct (bool_decide (role sk = JsString "listener")) eqn:Hl; [|by left].
      apply bool_decide_eq_true in Hl. right. right. split; [done|].
      destruct (_ && _); simpl; [apply lookup_delete_eq | apply lookup_insert_eq].
  - left. destruct (rs !! r0) as [room0|]; [|done].
    destruct (_ && _).
    { destruct (_ =? _)%nat; simpl;
        [by rewrite lookup_delete_ne | by rewrite lookup_insert_ne]. }
    destruct (bool_decide _); [|done].
    destruct (_ && _); simpl;
      [by rewrite lookup_delete_ne | by rewrite lookup_insert_ne].
Qed.

(** Inputs that leave the registry alone. *)
Lemma step_rooms_frame cfg st i :
  match i with
  | Connect _ | Offer _ _ _ _ | Answer _ _ _ _ | IceCandidate _ _ _ _
  | MuteStream _ | UnmuteStream _ => rooms (step cfg st i).1 = rooms st
  | _ => True
  end.
Proof.
  destruct i as [c|c v rolev now|c to p now|c to p now|c to p now|c|c|c|draws now|now];
    simpl; unfold on_socket; try done.
  - unfold connect. destruct (sockets st !! c); [done|]. by destruct (_ <? _).
  - destruct (sockets st !! c); [|done]. rewrite relay_spec. by destruct (_ <? _).
  - destruct (sockets st !! c); [|done]. rewrite relay_spec. by destruct (_ <? _).
  - destruct (sockets st !! c); [|done]. rewrite relay_spec. by destruct (_ <? _).
  - by destruct (sockets st !! c).
  - by destruct (sockets st !! c).
Qed.

Lemma post_rooms_keeps cfg st draws now r room :
  rooms st !! r = Some room ->
  rooms (post_rooms cfg st draws now).1 !! r = Some room.
Proof.
  intros Hr. unfold post_rooms. destruct (at_capacity cfg (rooms st)); [done|].
  destruct (generateRoomId (rooms st) draws) as [r0|]; [|done]. simpl.
  destruct (rooms st !! r0) eqn:E; [done|].
  rewrite lookup_insert_ne; [done|]. intros ->. by rewrite Hr in E.
Qed.

(** X15. Only its own disconnect takes a host out of its room. If a room
    records a host, then after any single input other than that host's
    disconnect (a join of whatever role by anyone, a listener leaving,
    another connection's disconnect, an explicit creation, a sweep, any
    signaling or mute message) the room is still in the registry with the
    same host. *)
Theorem host_leaves_only_by_disconnect cfg st r h i :
  recorded_host st r h -> str_truthy h = true ->
  i <> Disconnect h ->
  recorded_host (step cfg st i).1 r h.
Proof.
  intros (room & Hr & Hhost) Ht Hi.
  assert (Hrec : recorded_host st r h) by (by exists room).
  pose proof (step_rooms_frame cfg st i) as Hframe.
  destruct i as [c|c v rolev now|c to p now|c to p now|c to p now|c|c|c|draws now|now];
    try (unfold recorded_host; rewrite Hframe; by exists room).
  - by apply join_keeps_host.
  - simpl. unfold on_socket. destruct (sockets st !! c) as [sk|]; [|done].
    unfold disconnect.
    pose proof (handleDisconnect_cases (rooms st) c sk r room Hr) as Hcases.
    destruct (handleDisconnect (rooms st) c sk) as [rs outs]. simpl in *.
    destruct Hcases as [Hsame|[(_ & Hc & _)|(_ & Hl)]].
    + by exists room.
    + rewrite Hhost in Hc. congruence.
    + rewrite Hhost in Hl. simpl in Hl. rewrite Ht in Hl. simpl in Hl.
      eexists. split; [exact Hl | done].
  - simpl. exists room. split; [by apply post_rooms_keeps | done].
  - exists room. split; [|done].
    change (sweep cfg (rooms st) now !! r = Some room).
    rewrite (sweep_lookup _ _ _ _ room) by done.
    unfold stale. rewrite Hhost. simpl. by rewrite Ht.
Qed.

Lemma host_leaves_only_by_disconnect_witness :
  recorded_host (step demo_config scenario_C (Disconnect "L1")).1 "R1" "H"
  /\ recorded_host (step demo_config scenario_C (Sweep (5 + 100 * 3600000))).1 "R1" "H".
Proof.
  assert (Hrec : recorded_host scenario_C "R1" "H").
  { exists (mkRoom (Some "H") ["L1"; "L2"] 5). split; [vm_compute; reflexivity | done]. }
  split.
  - apply (host_leaves_only_by_disconnect demo_config scenario_C "R1" "H"
             (Disconnect "L1") Hrec eq_refl). discriminate.
  - apply (host_leaves_only_by_disconnect demo_config scenario_C "R1" "H"
             (Sweep (5 + 100 * 3600000)) Hrec eq_refl). discriminate.
Defined.

(** [l] is in the listener set of room [r]. *)
Definition recorded_listener (st : State) (r l : string) : Prop :=
  exists room, rooms st !! r = Some room /\ l ∈ listeners room.

Lemma join_keeps_listener cfg st c sk v rolev now r l :
  recorded_listener st r l ->
  recorded_listener (join_room cfg st c sk v rolev now).1 r l.
Proof.
  intros (room & Hr & Hl).
  destruct (decide (v = JsString r)) as [->|Hne].
  - destruct (invalid_room_id (JsString r)) eqn:Hv.
    { rewrite join_room_invalid by done. by exists room. }
    rewrite (join_room_existing _ _ _ _ _ room) by done. cbn zeta.
    destruct (bool_decide (rolev = JsString "host")).
    { unfold handleHostJoin. destruct (opt_truthy (host room)); simpl;
        eexists; (split; [apply lookup_insert_eq | done]). }
    destruct (bool_decide (rolev = JsString "listener")); simpl.
    + eexists. split; [apply lookup_insert_eq|]. simpl.
      unfold set_add. case_bool_decide; [done|]. apply elem_of_app. by left.
    + exists room. split; [apply lookup_insert_eq | done].
  - exists room. by rewrite join_room_other_rooms.
Qed.

(** X16. Only its own disconnect takes a listener out of a room, and a room
    with a listener is never deleted: if a socket id is in a room's listener
    set, then after any single input other than that socket's disconnect the
    room is still in the registry and still lists it. *)
Theorem listener_leaves_only_by_disconnect cfg st r l i :
  recorded_listener st r l ->
  i <> Disconnect l ->
  recorded_listener (step cfg st i).1 r l.
Proof.
  intros (room & Hr & Hl) Hi.
  assert (Hrec : recorded_listener st r l) by (by exists room).
  assert (Hne : listeners room <> []) by (intros E; rewrite E in Hl; by apply elem_of_nil in Hl).
  pose proof (step_rooms_frame cfg st i) as Hframe.
  destruct i as [c|c v rolev now|c to p now|c to p now|c to p now|c|c|c|draws now|now];
    try (unfold recorded_listener; rewrite Hframe; by exists room).
  - simpl. unfold on_socket. destruct (sockets st !! c) as [sk|]; [|done].
    by apply join_keeps_listener.
  - simpl. unfold on_socket. destruct (sockets st !! c) as [sk|]; [|done].
    unfold disconnect.
    pose proof (handleDisconnect_cases (rooms st) c sk r room Hr) as Hcases.
    destruct (handleDisconnect (rooms st) c sk) as [rs outs]. simpl in *.
    assert (Hcl : c <> l) by congruence.
    destruct Hcases as [Hsame|[(_ & _ & Hh)|(_ & Hls)]].
    + by exists room.
    + destruct (listeners room) as [|x xs] eqn:E; [done|]. simpl in Hh.
      eexists. split; [exact Hh|]. simpl. exact Hl.
    + assert (Hin : l ∈ set_delete c (listeners room)) by (by apply set_delete_elem).
      destruct (set_delete c (listeners room)) as [|x xs] eqn:E;
        [by apply elem_of_nil in Hin|].
      simpl in Hls. rewrite andb_false_r in Hls.
      eexists. split; [exact Hls | done].
  - simpl. exists room. split; [by apply post_rooms_keeps | done].
  - exists room. split; [|done].
    change (sweep cfg (rooms st) now !! r = Some room).
    rewrite (sweep_lookup _ _ _ _ room) by done.
    assert (stale cfg now room = false) as ->; [|done].
    apply stale_false. right. by left.
Qed.

Lemma listener_leaves_only_by_disconnect_witness :
  recorded_listener (step demo_config scenario_C (Disconnect "H")).1 "R1" "L2"
  /\ recorded_listener (step demo_config scenario_C (Disconnect "L1")).1 "R1" "L2".
Proof.
  assert (Hrec : recorded_listener scenario_C "R1" "L2").
  { exists (mkRoom (Some "H") ["L1"; "L2"] 5).
    split; [vm_compute; reflexivity | simpl; right; by left]. }
  split.
  - apply (listener_leaves_only_by_disconnect demo_config scenario_C "R1" "L2"
             (Disconnect "H") Hrec). discriminate.
  - apply (listener_leaves_only_by_disconnect demo_config scenario_C "R1" "L2"
             (Disconnect "L1") Hrec). discriminate.
Defined.

(** ** Sequences of operations *)










(** ** Rooms nobody has joined as host or listener *)















(** * The Socket.IO server of the Next.js middleware

    The repository's first signaling server, started from the Next.js
    middleware: room and role come with the connection itself (the handshake
    query), each role gets its own handlers, and rooms are kept in a Map of
    [{ host?, listeners }] that nothing ever deletes from. Socket.IO gives
    every connection a fresh id. *)
Module Middleware.

(** A value of [socket.handshake.query]: absent, a string, or an array of
    strings (a repeated parameter). *)
Inductive QueryValue :=
| QUndefined
| QString (s : string)
| QStrings (l : list string).

#[global] Instance QueryValue_eq_dec : EqDecision QueryValue.
Proof. solve_decision. Defined.

Record MRoom := mkMRoom {
  mhost : option string;
  mlisteners : list string;
}.

(** The handlers the connection handler registered on a socket; the host's
    and the listener's closures keep the room they were given. *)
Inductive Handlers :=
| HostHandlers (r : string)
| ListenerHandlers (r : string)
| NoHandlers.

Record MSocket := mkMSocket {
  handlers : Handlers;
  mjoined : gset string;
}.

Record MState := mkMState {
  mrooms : gmap string MRoom;
  msockets : gmap string MSocket;
}.

Inductive MEvent :=
| MError (message : string)
| MListenerJoined (listenerId : string)
| MListenerLeft (listenerId : string)
| MHostDisconnected
| MOffer (from offer : string)
| MAnswer (from answer : string)
| MIceCandidate (from candidate : string).

#[global] Instance MEvent_eq_dec : EqDecision MEvent.
Proof. solve_decision. Defined.

Inductive MOut :=
| MEmit (c : string) (ev : MEvent)
| MBroadcast (c : string) (target : string) (ev : MEvent).

Definition m_in_io_room (socks : gmap string MSocket) (c x : string) : bool :=
  match socks !! c with
  | Some sk => bool_decide (c = x) || bool_decide (x ∈ mjoined sk)
  | None => false
  end.

Definition m_receives (socks : gmap string MSocket) (o : MOut) (c : string) : bool :=
  match o with
  | MEmit s _ => bool_decide (c = s)
  | MBroadcast s x _ => negb (bool_decide (c = s)) && m_in_io_room socks c x
  end.

Definition m_out_event (o : MOut) : MEvent :=
  match o with
  | MEmit _ ev => ev
  | MBroadcast _ _ ev => ev
  end.

Definition m_gets (socks : gmap string MSocket) (outs : list MOut) (c : string)
    (ev : MEvent) : bool :=
  existsb (fun o => m_receives socks o c && bool_decide (m_out_event o = ev)) outs.

Definition new_room : MRoom := mkMRoom None [].

(** [io.on("connection")]. A socket that is disconnected before the handler
    returns is not kept. *)
Definition connection (st : MState) (c : string) (roomIdv rolev : QueryValue)
  : MState * list MOut :=
  match roomIdv with
  | QString r =>
      if negb (str_truthy r) then (st, [])
      else
        let rs :=
          match mrooms st !! r with
          | Some _ => mrooms st
          | None => <[r := new_room]> (mrooms st)
          end in
        let room := default new_room (rs !! r) in
        if bool_decide (rolev = QString "host") then
          if opt_truthy (mhost room) then
            (mkMState rs (msockets st), [MEmit c (MError "Room already has a host")])
          else
            (mkMState (<[r := mkMRoom (Some c) (mlisteners room)]> rs)
                      (<[c := mkMSocket (HostHandlers r) {[r]}]> (msockets st)),
             [])
        else if bool_decide (rolev = QString "listener") then
          (mkMState (<[r := mkMRoom (mhost room) (set_add c (mlisteners room))]> rs)
                    (<[c := mkMSocket (ListenerHandlers r) {[r]}]> (msockets st)),
           match mhost room with
           | Some h => if str_truthy h then [MBroadcast c h (MListenerJoined c)] else []
           | None => []
           end)
        else
          (mkMState rs (<[c := mkMSocket NoHandlers ∅]> (msockets st)), [])
  | _ => (st, [])
  end.

(** The [disconnect] handlers. *)
Definition on_disconnect (st : MState) (c : string) : MState * list MOut :=
  match msockets st !! c with
  | None => (st, [])
  | Some sk =>
      let socks := delete c (msockets st) in
      match handlers sk with
      | HostHandlers r =>
          match mrooms st !! r with
          | Some room =>
              if bool_decide (mhost room = Some c) then
                (mkMState (<[r := mkMRoom None (mlisteners room)]> (mrooms st)) socks,
                 (fun l => MBroadcast c l MHostDisconnected) <$> mlisteners room)
              else (mkMState (mrooms st) socks, [])
          | None => (mkMState (mrooms st) socks, [])
          end
      | ListenerHandlers r =>
          match mrooms st !! r with
          | Some room =>
              (mkMState (<[r := mkMRoom (mhost room) (set_delete c (mlisteners room))]>
                           (mrooms st)) socks,
               match mhost room with
               | Some h => if str_truthy h then [MBroadcast c h (MListenerLeft c)] else []
               | None => []
               end)
          | None => (mkMState (mrooms st) socks, [])
          end
      | NoHandlers => (mkMState (mrooms st) socks, [])
      end
  end.

Inductive MInput :=
| MConnect (c : string) (roomIdv rolev : QueryValue)
| MSendOffer (c to offer : string)
| MSendAnswer (c to answer : string)
| MSendIceCandidate (c to candidate : string)
| MDisconnect (c : string).

(** A host has [offer] and [ice-candidate] handlers, a listener [answer] and
    [ice-candidate]; a message without a handler is ignored. *)
Definition m_step (st : MState) (i : MInput) : MState * list MOut :=
  match i with
  | MConnect c roomIdv rolev => connection st c roomIdv rolev
  | MSendOffer c to offer =>
      match handlers <$> msockets st !! c with
      | Some (HostHandlers _) => (st, [MBroadcast c to (MOffer c offer)])
      | _ => (st, [])
      end
  | MSendAnswer c to answer =>
      match handlers <$> msockets st !! c with
      | Some (ListenerHandlers _) => (st, [MBroadcast c to (MAnswer c answer)])
      | _ => (st, [])
      end
  | MSendIceCandidate c to candidate =>
      match handlers <$> msockets st !! c with
      | Some (HostHandlers _) | Some (ListenerHandlers _) =>
          (st, [MBroadcast c to (MIceCandidate c candidate)])
      | _ => (st, [])
      end
  | MDisconnect c => on_disconnect st c
  end.

(** X20. This server never forgets a room and never refuses one: whatever
    the input, every room of the registry is still there afterwards, and a
    connection whose [roomId] is a non-empty string leaves a room of that
    name in the registry whatever its role (also an unknown one). *)
Theorem rooms_only_grow (st : MState) (i : MInput) :
  (forall r, is_Some (mrooms st !! r) -> is_Some (mrooms (m_step st i).1 !! r))
  /\ (forall c r rolev, i = MConnect c (QString r) rolev -> str_truthy r = true ->
        is_Some (mrooms (m_step st i).1 !! r)).
Proof.
  assert (Hins : forall (rs : gmap string MRoom) r0 room r,
             is_Some (rs !! r) -> is_Some (<[r0 := room]> rs !! r)).
  { intros rs r0 room r Hr. destruct (decide (r0 = r)) as [->|Hne].
    - rewrite lookup_insert_eq. eauto.
    - by rewrite lookup_insert_ne. }
  assert (Hconn : forall c r rolev, str_truthy r = true ->
             (forall r', is_Some (mrooms st !! r') ->
                         is_Some (mrooms (connection st c (QString r) rolev).1 !! r'))
             /\ is_Some (mrooms (connection st c (QString r) rolev).1 !! r)).
  { intros c r rolev Ht. unfold connection. rewrite Ht. simpl.
    set (rs := match mrooms st !! r with
               | Some _ => mrooms st
               | None => <[r:=new_room]> (mrooms st)
               end).
    assert (Hrs : forall r', is_Some (mrooms st !! r') -> is_Some (rs !! r')).
    { intros r' Hr'. unfold rs. destruct (mrooms st !! r); [done | by apply Hins]. }
    assert (Hr : is_Some (rs !! r)).
    { unfold rs. destruct (mrooms st !! r) eqn:E; [by rewrite E|].
      rewrite lookup_insert_eq. eauto. }
    destruct (bool_decide (rolev = QString "host")).
    { destruct (opt_truthy _); simpl; split; auto. }
    destruct (bool_decide (rolev = QString "listener")); simpl; split; auto. }
  split.
  - intros r Hr.
    destruct i as [c v rolev|c to p|c to p|c to p|c]; simpl.
    + destruct v as [|r0|l]; try done.
      destruct (str_truthy r0) eqn:Ht; [by apply Hconn|].
      unfold connection. by rewrite Ht.
    + destruct (handlers <$> msockets st !! c) as [hd|]; [by destruct hd | done].
    + destruct (handlers <$> msockets st !! c) as [hd|]; [by destruct hd | done].
    + destruct (handlers <$> msockets st !! c) as [hd|]; [by destruct hd | done].
    + unfold on_disconnect. destruct (msockets st !! c) as [sk|]; [|done].
      destruct (handlers sk) as [r0|r0|]; [| |done].
      * destruct (mrooms st !! r0) as [room|]; [|done].
        destruct (bool_decide _); [|done]. simpl. by apply Hins.
      * destruct (mrooms st !! r0) as [room|]; [|done]. simpl. by apply Hins.
  - intros c r rolev -> Ht. simpl. by apply Hconn.
Qed.

Lemma rooms_only_grow_witness :
  is_Some (mrooms (m_step (mkMState ∅ ∅) (MConnect "S1" (QString "R1") (QString "dj"))).1
           !! "R1").
Proof.
  apply (proj2 (rooms_only_grow (mkMState ∅ ∅) (MConnect "S1" (QString "R1") (QString "dj")))
               "S1" "R1" (QString "dj")); reflexivity.
Defined.

(** X21. A second host is turned away without a trace: a connection asking
    to host a room that has a host is sent the error "Room already has a
    host" and dropped, and the state is exactly what it was, so the refused
    socket is not live, is in no room and has no handlers: nothing it sends
    later is forwarded or changes anything. *)
Theorem second_host_leaves_no_trace (st : MState) (c r : string) (room : MRoom) (i : MInput) :
  msockets st !! c = None ->
  mrooms st !! r = Some room -> opt_truthy (mhost room) = true ->
  str_truthy r = true ->
  (exists to p, i = MSendOffer c to p \/ i = MSendAnswer c to p
                \/ i = MSendIceCandidate c to p \/ i = MDisconnect c) ->
  m_step st (MConnect c (QString r) (QString "host"))
    = (st, [MEmit c (MError "Room already has a host")])
  /\ m_step (m_step st (MConnect c (QString r) (QString "host"))).1 i = (st, []).
Proof.
  intros Hc Hr Hh Ht Hi.
  assert (Hconn : m_step st (MConnect c (QString r) (QString "host"))
                  = (st, [MEmit c (MError "Room already has a host")])).
  { simpl. unfold connection. rewrite Ht, Hr. simpl. rewrite Hr. simpl.
    rewrite Hh. by destruct st. }
  split; [exact Hconn|]. rewrite Hconn. simpl.
  destruct Hi as (to & p & [-> | [-> | [-> | ->]]]); simpl; unfold on_disconnect;
    by rewrite Hc.
Qed.

Definition hosted_room : MState :=
  (m_step (mkMState ∅ ∅) (MConnect "S1" (QString "R1") (QString "host"))).1.

Lemma second_host_leaves_no_trace_witness :
  m_step hosted_room (MConnect "S2" (QString "R1") (QString "host"))
    = (hosted_room, [MEmit "S2" (MError "Room already has a host")])
  /\ m_step (m_step hosted_room (MConnect "S2" (QString "R1") (QString "host"))).1
            (MSendOffer "S2" "S1" "sdp") = (hosted_room, []).
Proof.
  apply (second_host_leaves_no_trace hosted_room "S2" "R1" (mkMRoom (Some "S1") [])
           (MSendOffer "S2" "S1" "sdp")).
  - vm_compute. reflexivity.
  - vm_compute. reflexivity.
  - reflexivity.
  - reflexivity.
  - exists "S1", "sdp". by left.
Defined.

(** X22. When the host of a room disconnects, the room loses its host but
    stays in the registry with its listener set, even an empty one, and every
    live listener of the room other than the host itself receives
    [host-disconnected]. *)
Theorem host_disconnect_keeps_room (st : MState) (c r : string) (sk : MSocket) (room : MRoom) :
  msockets st !! c = Some sk -> handlers sk = HostHandlers r ->
  mrooms st !! r = Some room -> mhost room = Some c ->
  let res := m_step st (MDisconnect c) in
  mrooms res.1 !! r = Some (mkMRoom None (mlisteners room))
  /\ msockets res.1 !! c = None
  /\ forall l, l ∈ mlisteners room -> l <> c -> is_Some (msockets st !! l) ->
       m_gets (msockets res.1) res.2 l MHostDisconnected = true.
Proof.
  intros Hc Hh Hr Hhost res.
  assert (Hres : res = (mkMState (<[r := mkMRoom None (mlisteners room)]> (mrooms st))
                                 (delete c (msockets st)),
                        (fun l => MBroadcast c l MHostDisconnected) <$> mlisteners room)).
  { unfold res. simpl. unfold on_disconnect. rewrite Hc, Hh, Hr.
    by rewrite bool_decide_eq_true_2. }
  rewrite Hres. simpl. split; [apply lookup_insert_eq|].
  split; [apply lookup_delete_eq|].
  intros l Hl Hne [skl Hskl]. unfold m_gets. apply existsb_exists.
  exists (MBroadcast c l MHostDisconnected). split.
  - apply list_elem_of_In, list_elem_of_fmap. by exists l.
  - simpl. rewrite bool_decide_eq_false_2 by done. simpl.
    unfold m_in_io_room. rewrite lookup_delete_ne by done. rewrite Hskl.
    rewrite (bool_decide_eq_true_2 (l = l)) by done. reflexivity.
Qed.

Definition hosted_room_with_listener : MState :=
  (m_step hosted_room (MConnect "S3" (QString "R1") (QString "listener"))).1.

Lemma host_disconnect_keeps_room_witness :
  let res := m_step hosted_room_with_listener (MDisconnect "S1") in
  mrooms res.1 !! "R1" = Some (mkMRoom None ["S3"])
  /\ m_gets (msockets res.1) res.2 "S3" MHostDisconnected = true.
Proof.
  intros res.
  destruct (host_disconnect_keeps_room hosted_room_with_listener "S1" "R1"
              (mkMSocket (HostHandlers "R1") {["R1"]}) (mkMRoom (Some "S1") ["S3"]))
    as (H1 & _ & H3).
  - vm_compute. reflexivity.
  - reflexivity.
  - vm_compute. reflexivity.
  - reflexivity.
  - split; [exact H1|]. apply H3; [by left | discriminate |].
    exists (mkMSocket (ListenerHandlers "R1") {["R1"]}). vm_compute. reflexivity.
Defined.

End Middleware.
